(** * Minesweeper board logic: a shallow embedding of
      [src/features/game/components/GameBoard.tsx] and [constants/constants.ts].

    The React component keeps six pieces of state ([board], [flagCount],
    [revealedCount], [isGameStart], [isGameOver], [isGameWon]).  Every event
    handler runs to completion on the state committed by the last render, so a
    handler is modelled as a function from the committed state to the next
    one.  Inside a handler the closure variables keep their render-time values
    while the [setX(prev => ...)] updaters are queued: the model reads counters
    from the input state and writes them to the output state.

    The rows of [board] are shared between [board] and the shallow copy
    [newBoard = [...board]], and the cells are mutated in place, so there is a
    single store: one board value threaded through each handler.

    [handleClick] and [handleDesktopRightClick] only choose, on a timer,
    which of [revealedCell] and [flagToggleSet] to call; the timer is not
    modelled.  [Math.random] is an input: the list of the cells it picks. *)

From Stdlib Require Import ZArith Lia Bool.
From stdpp Require Import base tactics numbers option list.

Local Open Scope Z_scope.

(** ** Outcomes of running a piece of the program *)

(** [Done a]: normal completion.  [Throws]: a JavaScript exception (reading a
    property of [undefined], or [new Array] on a negative length).
    [Pending]: the loop or the recursion was still running when the supplied
    random numbers, or the recursion budget, were used up. *)
Inductive Outcome (A : Type) : Type :=
| Done (a : A)
| Throws
| Pending.
Arguments Done {A} a.
Arguments Throws {A}.
Arguments Pending {A}.

Definition bindO {A B} (m : Outcome A) (k : A → Outcome B) : Outcome B :=
  match m with
  | Done a => k a
  | Throws => Throws
  | Pending => Pending
  end.

Notation "x ←' m ; k" := (bindO m (λ x, k))
  (at level 20, m at level 100, k at level 200, right associativity,
   format "x  ←'  m ;  '/' k").

(** [l.forEach(f)] where [f] updates a state and may throw or run out. *)
Fixpoint forEachO {A S} (f : A → S → Outcome S) (l : list A) (s : S) : Outcome S :=
  match l with
  | [] => Done s
  | x :: rest => s' ←' f x s; forEachO f rest s'
  end.

(** ** Data *)

(** [{ row, col }] objects: grid sizes and cell coordinates. *)
Module Pos.
Record t : Type := mk { row : Z; col : Z }.
End Pos.

#[global] Instance Pos_eq_dec : EqDecision Pos.t.
Proof. solve_decision. Defined.

(** [CellProps] without its two callbacks, which board logic never calls. *)
Module CellProps.
Record t : Type := mk {
  isMine : bool;
  isRevealed : bool;
  isFlagged : bool;
  adjacentMines : Z;
  surroundingCells : list Pos.t
}.

(** [cell.isMine = v], [{ ...cell, isRevealed: v }], ... *)
Definition setMine (v : bool) (c : t) : t :=
  mk v (isRevealed c) (isFlagged c) (adjacentMines c) (surroundingCells c).
Definition setRevealed (v : bool) (c : t) : t :=
  mk (isMine c) v (isFlagged c) (adjacentMines c) (surroundingCells c).
Definition setFlagged (v : bool) (c : t) : t :=
  mk (isMine c) (isRevealed c) v (adjacentMines c) (surroundingCells c).
Definition setAdjacent (n : Z) (l : list Pos.t) (c : t) : t :=
  mk (isMine c) (isRevealed c) (isFlagged c) n l.
End CellProps.

Abbreviation Board := (list (list CellProps.t)).

(** The [useState] values of the [GameBoard] component. *)
Module GameBoard.
Record t : Type := mk {
  board : Board;
  flagCount : Z;
  revealedCount : Z;
  isGameStart : bool;
  isGameOver : bool;
  isGameWon : bool
}.
End GameBoard.

(** [constants/constants.ts] *)
Module constants.
Definition GRID_SIZE : Pos.t := Pos.mk 8 8.
Definition NUM_MINES : Z := 10.
Definition TAP_DELAY : Z := 250.
End constants.

(** ** Arrays *)

(** [l[i]]: [undefined] (here [None]) outside [0 .. length-1]. *)
Definition index {A} (l : list A) (i : Z) : option A :=
  if 0 <=? i then l !! Z.to_nat i else None.

(** [l[i] = x], used by the program only on an index it has just read. *)
Definition assign {A} (l : list A) (i : Z) (x : A) : list A :=
  if 0 <=? i then <[Z.to_nat i := x]> l else l.

(** [board[row][col]] *)
Definition cellAt (board : Board) (p : Pos.t) : option CellProps.t :=
  match index board (Pos.row p) with
  | Some r => index r (Pos.col p)
  | None => None
  end.

(** [board[row][col] = x]: the row array is updated in place. *)
Definition setCell (board : Board) (p : Pos.t) (x : CellProps.t) : Board :=
  match index board (Pos.row p) with
  | Some r => assign board (Pos.row p) (assign r (Pos.col p) x)
  | None => board
  end.

(** [board.map(row => row.map(cell => f cell))] used for its in-place effect. *)
Definition mapCells (f : CellProps.t → CellProps.t) (board : Board) : Board :=
  fmap (M := list) (fmap (M := list) f) board.

(** All cells in row-major order, and the number of cells satisfying a test. *)
Definition cells (board : Board) : list CellProps.t := concat board.

Definition countCells (f : CellProps.t → bool) (board : Board) : Z :=
  Z.of_nat (length (filter (λ c, f c = true) (cells board))).

(** The coordinates [board.map((row, rowIndex) => row.map((cell, colIndex) => ..))]
    visits, in the order it visits them. *)
Definition indices (board : Board) : list Pos.t :=
  concat (imap (λ i r, imap (λ j _, Pos.mk (Z.of_nat i) (Z.of_nat j)) r) board).

(** [boardRel R b b']: [b'] has the shape of [b], and each of its cells is
    related by [R] to the cell of [b] at the same place. *)
Definition boardRel (R : CellProps.t → CellProps.t → Prop) (b b' : Board) : Prop :=
  Forall2 (Forall2 R) b b'.

(** ** The program *)

(** The pairs [(i, j)] of the two nested [for] loops from -1 to 1. *)
Definition offsets : list (Z * Z) :=
  i ← [-1; 0; 1]; j ← [-1; 0; 1]; [(i, j)].

Section Game.
Context (GRID_SIZE : Pos.t) (NUM_MINES : Z).

Definition inGrid (newRow newCol : Z) : bool :=
  (0 <=? newRow) && (newRow <? Pos.row GRID_SIZE) &&
  (0 <=? newCol) && (newCol <? Pos.col GRID_SIZE).

(** [surroundingCells(row, col)] *)
Definition surroundingCells (row col : Z) : list Pos.t :=
  '(i, j) ← offsets;
  let newRow := row + i in
  let newCol := col + j in
  if inGrid newRow newCol then [Pos.mk newRow newCol] else [].

(** [adjacentMines(row, col, board)] *)
Definition adjacentMines (row col : Z) (board : Board) : Outcome Z :=
  forEachO (λ '(i, j) count,
    let newRow := row + i in
    let newCol := col + j in
    if inGrid newRow newCol then
      match cellAt board (Pos.mk newRow newCol) with
      | None => Throws
      | Some c => Done (if CellProps.isMine c then count + 1 else count)
      end
    else Done count) offsets 0.

(** The [while] loop of [setMines].  [picks] are the successive values of
    the pair [(randomRow, randomCol)], that is of
    [Math.floor(Math.random() * board.length)] and
    [Math.floor(Math.random() * board[0].length)]. *)
Fixpoint setMines_loop (numMines : Z) (picks : list Pos.t)
    (minesPlaced : Z) (board : Board) : Outcome Board :=
  if minesPlaced <? numMines then
    match picks with
    | [] => Pending
    | p :: picks' =>
      match board with
      | [] => Throws
      | _ :: _ =>
        match cellAt board p with
        | None => Throws
        | Some c =>
          if CellProps.isMine c then
            setMines_loop numMines picks' minesPlaced board
          else
            setMines_loop numMines picks' (minesPlaced + 1)
              (setCell board p (CellProps.setMine true c))
        end
      end
    end
  else Done board.

(** [setMines(numMines, board)] *)
Definition setMines (numMines : Z) (board : Board) (picks : list Pos.t)
    : Outcome Board :=
  setMines_loop numMines picks 0 board.

(** [initializeCell()] *)
Definition initializeCell : CellProps.t :=
  CellProps.mk false false false 0 [].

(** The body of the second pass of [initializeBoard] at one cell: the cell is
    updated in place, and [adjacentMines] reads the board as it is then. *)
Definition annotateCell (p : Pos.t) (newBoard : Board) : Outcome Board :=
  match cellAt newBoard p with
  | None => Throws
  | Some cell =>
    n ←' (if CellProps.isMine cell then Done (CellProps.adjacentMines cell)
          else adjacentMines (Pos.row p) (Pos.col p) newBoard);
    Done (setCell newBoard p
            (CellProps.setAdjacent n
               (surroundingCells (Pos.row p) (Pos.col p)) cell))
  end.

(** [initializeBoard()], returning the board it passes to [setBoard].
    [new Array(n)] throws a RangeError on a negative [n]. *)
Definition initializeBoard (picks : list Pos.t) : Outcome Board :=
  if (Pos.row GRID_SIZE <? 0)
     || ((0 <? Pos.row GRID_SIZE) && (Pos.col GRID_SIZE <? 0))
  then Throws
  else
    let newBoard : Board :=
      replicate (Z.to_nat (Pos.row GRID_SIZE))
        (replicate (Z.to_nat (Pos.col GRID_SIZE)) initializeCell) in
    newBoard ←' setMines NUM_MINES newBoard picks;
    forEachO annotateCell (indices newBoard) newBoard.

(** The state of a freshly mounted component once the mount effect has run,
    which is also the state [handleFaceClick] produces. *)
Definition freshGame (board : Board) : GameBoard.t :=
  GameBoard.mk board 0 0 false false false.

(** [handleFaceClick()] *)
Definition handleFaceClick (s : GameBoard.t) (picks : list Pos.t)
    : Outcome GameBoard.t :=
  newBoard ←' initializeBoard picks;
  Done (freshGame newBoard).

(** One iteration of the [forEach] of [recursiveSurroundCells]; [recurse] is
    the recursive call. *)
Definition visitCell (recurse : list Pos.t → GameBoard.t → Outcome GameBoard.t)
    (cell : Pos.t) (s : GameBoard.t) : Outcome GameBoard.t :=
  match cellAt (GameBoard.board s) cell with
  | None => Throws
  | Some c =>
    if negb (CellProps.isFlagged c) && negb (CellProps.isMine c)
       && negb (CellProps.isRevealed c)
    then
      let s1 :=
        GameBoard.mk
          (setCell (GameBoard.board s) cell (CellProps.setRevealed true c))
          (GameBoard.flagCount s) (GameBoard.revealedCount s + 1)
          (GameBoard.isGameStart s) (GameBoard.isGameOver s)
          (GameBoard.isGameWon s) in
      if CellProps.adjacentMines c =? 0
      then recurse (CellProps.surroundingCells c) s1
      else Done s1
    else Done s
  end.

(** [recursiveSurroundCells(surrounding)], with a bound [depth] on the depth
    of the recursion. *)
Fixpoint recursiveSurroundCells (depth : nat) (surrounding : list Pos.t)
    (s : GameBoard.t) : Outcome GameBoard.t :=
  match depth with
  | O => Pending
  | S depth' =>
    forEachO (visitCell (recursiveSurroundCells depth')) surrounding s
  end.

(** The recursion budget [revealedCell] runs the flood fill with: one more
    than the number of cells, which is never used up
    (see [recursiveSurroundCells_enough_depth]). *)
Definition floodDepth (board : Board) : nat := S (length (cells board)).

Definition unflaggedHidden (c : CellProps.t) : bool :=
  negb (CellProps.isRevealed c) && negb (CellProps.isFlagged c).

(** [revealedCell(row, col)] *)
Definition revealedCell (s : GameBoard.t) (row col : Z) : Outcome GameBoard.t :=
  match cellAt (GameBoard.board s) (Pos.mk row col) with
  | None => Throws
  | Some c =>
    if CellProps.isRevealed c || CellProps.isFlagged c then Done s
    else
      let newBoard :=
        setCell (GameBoard.board s) (Pos.mk row col)
          (CellProps.setRevealed true c) in
      if CellProps.isMine c then
        Done (GameBoard.mk (mapCells (CellProps.setRevealed true) newBoard)
                (GameBoard.flagCount s) (GameBoard.revealedCount s + 1)
                true true (GameBoard.isGameWon s))
      else if GameBoard.revealedCount s
              =? Pos.row GRID_SIZE * Pos.col GRID_SIZE - NUM_MINES - 1 then
        Done (GameBoard.mk
                (mapCells (λ cell, if unflaggedHidden cell
                                   then CellProps.setFlagged true cell
                                   else cell) newBoard)
                (GameBoard.flagCount s + countCells unflaggedHidden newBoard)
                (GameBoard.revealedCount s + 1)
                true (GameBoard.isGameOver s) true)
      else
        let s1 :=
          GameBoard.mk newBoard (GameBoard.flagCount s)
            (GameBoard.revealedCount s + 1) true
            (GameBoard.isGameOver s) (GameBoard.isGameWon s) in
        if CellProps.adjacentMines c =? 0 then
          recursiveSurroundCells (floodDepth newBoard)
            (CellProps.surroundingCells c) s1
        else Done s1
  end.

(** [flagToggleSet(row, col)] *)
Definition flagToggleSet (s : GameBoard.t) (row col : Z) : Outcome GameBoard.t :=
  match cellAt (GameBoard.board s) (Pos.mk row col) with
  | None => Throws
  | Some c =>
    if negb (CellProps.isRevealed c) then
      let '(newCount, newCell) :=
        if CellProps.isFlagged c
        then (GameBoard.flagCount s - 1, CellProps.setFlagged false c)
        else (GameBoard.flagCount s + 1, CellProps.setFlagged true c) in
      Done (GameBoard.mk
              (setCell (GameBoard.board s) (Pos.mk row col) newCell)
              newCount (GameBoard.revealedCount s) true
              (GameBoard.isGameOver s)
              (if GameBoard.revealedCount s
                  =? Pos.row GRID_SIZE * Pos.col GRID_SIZE - NUM_MINES
               then true else GameBoard.isGameWon s))
    else Done s
  end.

(** The states the component can be in: the state after mounting, and every
    state a handler produces from one of them. *)
Inductive reachable : GameBoard.t → Prop :=
| reach_mount picks board :
    initializeBoard picks = Done board → reachable (freshGame board)
| reach_reveal s row col s' :
    reachable s → revealedCell s row col = Done s' → reachable s'
| reach_flag s row col s' :
    reachable s → flagToggleSet s row col = Done s' → reachable s'
| reach_restart s picks s' :
    reachable s → handleFaceClick s picks = Done s' → reachable s'.

End Game.

(** ** Vocabulary of the statements *)

(** Is there a mine at [p]?  (No, off the board.) *)
Definition isMineAt (board : Board) (p : Pos.t) : bool :=
  match cellAt board p with
  | Some c => CellProps.isMine c
  | None => false
  end.

(** The number of coordinates of [ps] that hold a mine. *)
Definition mineCount (board : Board) (ps : list Pos.t) : Z :=
  Z.of_nat (length (filter (λ p, isMineAt board p = true) ps)).

(** What [setMines] may do to a cell, and what the second pass of
    [initializeBoard] leaves alone. *)
Definition minedFrom (c c' : CellProps.t) : Prop :=
  c' = c ∨ c' = CellProps.setMine true c.

Definition annotatedFrom (c c' : CellProps.t) : Prop :=
  CellProps.isMine c' = CellProps.isMine c ∧
  CellProps.isRevealed c' = CellProps.isRevealed c ∧
  CellProps.isFlagged c' = CellProps.isFlagged c.

(** Two coordinates at most one row and one column apart (a coordinate is
    within reach of itself). *)
Definition near (p q : Pos.t) : Prop :=
  -1 ≤ Pos.row q - Pos.row p ≤ 1 ∧ -1 ≤ Pos.col q - Pos.col p ≤ 1.

(** What the flood fill may do to a cell: nothing, or reveal it when it is
    hidden, unflagged and not a mine. *)
Definition revealedFrom (c c' : CellProps.t) : Prop :=
  c' = c ∨
  (CellProps.isMine c = false ∧ CellProps.isFlagged c = false ∧
   CellProps.isRevealed c = false ∧ c' = CellProps.setRevealed true c).

(** What no handler changes in a cell. *)
Definition playedFrom (c c' : CellProps.t) : Prop :=
  CellProps.isMine c' = CellProps.isMine c ∧
  CellProps.adjacentMines c' = CellProps.adjacentMines c ∧
  CellProps.surroundingCells c' = CellProps.surroundingCells c.

(** A handler only ever reveals cells that are not mines, short of losing. *)
Definition safeFrom (c c' : CellProps.t) : Prop :=
  playedFrom c c' ∧
  (CellProps.isRevealed c' = true →
   CellProps.isRevealed c = true ∨ CellProps.isMine c = false).

(** [cell.isFlagged = true] on the cells the winning click finds hidden and
    unflagged. *)
Definition flagHidden (cell : CellProps.t) : CellProps.t :=
  if unflaggedHidden cell then CellProps.setFlagged true cell else cell.

Definition revealedAt (board : Board) (p : Pos.t) : Prop :=
  ∃ c, cellAt board p = Some c ∧ CellProps.isRevealed c = true.

(** A cell the flood fill does not refuse on sight: on the board, not a mine,
    not flagged. *)
Definition floodable (board : Board) (p : Pos.t) : Prop :=
  ∃ c, cellAt board p = Some c ∧
       CellProps.isMine c = false ∧ CellProps.isFlagged c = false.

(** A cell through which the flood fill goes on: hidden, unflagged, not a
    mine, and with no mine around. *)
Definition spreads (board : Board) (p : Pos.t) : Prop :=
  ∃ c, cellAt board p = Some c ∧
       CellProps.isRevealed c = false ∧ CellProps.isFlagged c = false ∧
       CellProps.isMine c = false ∧ CellProps.adjacentMines c = 0.

(** The cells the flood fill started at [start] gets to: each step leaves a
    cell that [spreads] for a floodable cell next to it. *)
Inductive floodPath (board : Board) (start : Pos.t) : Pos.t → Prop :=
| flood_start : floodPath board start start
| flood_step p q :
    floodPath board start p → spreads board p → near p q → floodable board q →
    floodPath board start q.

(** The region as the specification words it: the zero-adjacency cells
    connected to [start] through the 8-neighbor relation, whether flagged or
    not, and the cells that are not mines next to them. *)
Inductive zeroRegion (board : Board) (start : Pos.t) : Pos.t → Prop :=
| zero_start : zeroRegion board start start
| zero_step p q :
    zeroRegion board start p →
    (∃ c, cellAt board p = Some c ∧ CellProps.isMine c = false ∧
          CellProps.adjacentMines c = 0) →
    near p q →
    (∃ c, cellAt board q = Some c ∧ CellProps.isMine c = false) →
    zeroRegion board start q.

(** What [recursiveSurroundCells surrounding], run from [s], guarantees of
    the state [s'] it ends in. *)
Record fillSpec (surrounding : list Pos.t) (s s' : GameBoard.t) : Prop := {
  fill_flagCount : GameBoard.flagCount s' = GameBoard.flagCount s;
  fill_isGameStart : GameBoard.isGameStart s' = GameBoard.isGameStart s;
  fill_isGameOver : GameBoard.isGameOver s' = GameBoard.isGameOver s;
  fill_isGameWon : GameBoard.isGameWon s' = GameBoard.isGameWon s;
  fill_board : boardRel revealedFrom (GameBoard.board s) (GameBoard.board s');
  fill_revealedCount :
    GameBoard.revealedCount s'
    = GameBoard.revealedCount s
      + (countCells CellProps.isRevealed (GameBoard.board s')
         - countCells CellProps.isRevealed (GameBoard.board s));
  fill_surrounding :
    ∀ p, p ∈ surrounding → floodable (GameBoard.board s) p →
         revealedAt (GameBoard.board s') p;
  fill_spread :
    ∀ p c, cellAt (GameBoard.board s) p = Some c →
           CellProps.isRevealed c = false →
           revealedAt (GameBoard.board s') p →
           CellProps.adjacentMines c = 0 →
           ∀ q, q ∈ CellProps.surroundingCells c →
                floodable (GameBoard.board s) q →
                revealedAt (GameBoard.board s') q
}.

(** Every coordinate stored in a cell is on the board. *)
Definition neighborsOnBoard (board : Board) : Prop :=
  ∀ p c q, cellAt board p = Some c → q ∈ CellProps.surroundingCells c →
           is_Some (cellAt board q).

Definition isHidden (c : CellProps.t) : bool := negb (CellProps.isRevealed c).

Section Vocabulary.
Context (GRID_SIZE : Pos.t) (NUM_MINES : Z).

Definition onGrid (p : Pos.t) : Prop :=
  inGrid GRID_SIZE (Pos.row p) (Pos.col p) = true.

#[global] Instance onGrid_dec (p : Pos.t) : Decision (onGrid p).
Proof. unfold onGrid. apply _. Defined.

(** The board has exactly the cells of the grid. *)
Definition gridBoard (board : Board) : Prop :=
  ∀ p, is_Some (cellAt board p) ↔ onGrid p.

(** The up-to-8 in-bounds positions surrounding [(row, col)], as the
    specification describes a cell's neighbors. *)
Definition neighbors (row col : Z) : list Pos.t :=
  filter onGrid
    [ Pos.mk (row - 1) (col - 1); Pos.mk (row - 1) col; Pos.mk (row - 1) (col + 1);
      Pos.mk row (col - 1); Pos.mk row (col + 1);
      Pos.mk (row + 1) (col - 1); Pos.mk (row + 1) col; Pos.mk (row + 1) (col + 1) ].

(** The second pass of [initializeBoard] has been through the cell [c] at [p]. *)
Definition annotatedAt (board : Board) (p : Pos.t) (c : CellProps.t) : Prop :=
  CellProps.surroundingCells c = surroundingCells GRID_SIZE (Pos.row p) (Pos.col p) ∧
  (CellProps.isMine c = false →
   CellProps.adjacentMines c
   = mineCount board (surroundingCells GRID_SIZE (Pos.row p) (Pos.col p))).

(** What holds of the state of the component at every render. *)
Record gameInv (s : GameBoard.t) : Prop := {
  inv_grid : gridBoard (GameBoard.board s);
  inv_size :
    Z.of_nat (length (cells (GameBoard.board s)))
    = Pos.row GRID_SIZE * Pos.col GRID_SIZE;
  inv_annotated :
    ∀ p c, cellAt (GameBoard.board s) p = Some c →
           annotatedAt (GameBoard.board s) p c;
  inv_mines :
    countCells CellProps.isMine (GameBoard.board s) = Z.max 0 NUM_MINES;
  inv_flagCount :
    GameBoard.flagCount s = countCells CellProps.isFlagged (GameBoard.board s);
  inv_playing :
    GameBoard.isGameOver s = false →
    GameBoard.revealedCount s
    = countCells CellProps.isRevealed (GameBoard.board s) ∧
    ∀ c, c ∈ cells (GameBoard.board s) →
         CellProps.isRevealed c = true → CellProps.isMine c = false;
  inv_lost :
    GameBoard.isGameOver s = true →
    ∀ c, c ∈ cells (GameBoard.board s) → CellProps.isRevealed c = true
}.

End Vocabulary.

(** ** Games on the grid of [constants] *)

(** The state after mounting with the given random picks, and after further
    handler calls. *)
Definition mount (picks : list Pos.t) : Outcome GameBoard.t :=
  board ←' initializeBoard constants.GRID_SIZE constants.NUM_MINES picks;
  Done (freshGame board).

Definition thenReveal (row col : Z) (o : Outcome GameBoard.t) : Outcome GameBoard.t :=
  s ←' o; revealedCell constants.GRID_SIZE constants.NUM_MINES s row col.

Definition thenFlag (row col : Z) (o : Outcome GameBoard.t) : Outcome GameBoard.t :=
  s ←' o; flagToggleSet constants.GRID_SIZE constants.NUM_MINES s row col.

(** The state an outcome ends in (an empty game when there is none). *)
Definition stateOf (o : Outcome GameBoard.t) : GameBoard.t :=
  match o with
  | Done s => s
  | _ => freshGame []
  end.

(** The ten mines fill rows 0 and 1 of columns 0 to 4; the random source
    draws [(1, 1)] twice.  Every other cell is a zero cell or borders one, in
    a single region. *)
Definition blockPicks : list Pos.t :=
  [ Pos.mk 0 0; Pos.mk 0 1; Pos.mk 0 2; Pos.mk 0 3; Pos.mk 0 4;
    Pos.mk 1 0; Pos.mk 1 1; Pos.mk 1 1; Pos.mk 1 2; Pos.mk 1 3; Pos.mk 1 4 ].

Definition blockGame : GameBoard.t := stateOf (mount blockPicks).

(** The ten mines wall off the corner cell [(0, 0)]. *)
Definition cornerPicks : list Pos.t :=
  [ Pos.mk 0 1; Pos.mk 0 2; Pos.mk 0 3; Pos.mk 1 0; Pos.mk 1 1;
    Pos.mk 1 2; Pos.mk 1 3; Pos.mk 2 0; Pos.mk 2 1; Pos.mk 2 2 ].

Definition cornerGame : GameBoard.t := stateOf (mount cornerPicks).

(** Six mines wall off rows 0 to 2 from rows 4 to 7, but for the zero cell
    [(3, 7)]; the four other mines sit in the top left corner. *)
Definition wallPicks : list Pos.t :=
  [ Pos.mk 3 0; Pos.mk 3 1; Pos.mk 3 2; Pos.mk 3 3; Pos.mk 3 4; Pos.mk 3 5;
    Pos.mk 0 0; Pos.mk 0 1; Pos.mk 1 0; Pos.mk 1 1 ].

(** That game with the cell in the gap, [(3, 7)], flagged. *)
Definition flaggedGame : GameBoard.t :=
  stateOf (thenFlag 3 7 (mount wallPicks)).

(** [blockGame] after a click on the mine at [(0, 0)]. *)
Definition lostGame : GameBoard.t :=
  stateOf (thenReveal 0 0 (mount blockPicks)).

(** [cornerGame] after a click on [(7, 7)], which floods all but the corner. *)
Definition almostWonGame : GameBoard.t :=
  stateOf (thenReveal 7 7 (mount cornerPicks)).

(** ... and then a click on the corner, which wins. *)
Definition wonGame : GameBoard.t :=
  stateOf (thenReveal 0 0 (thenReveal 7 7 (mount cornerPicks))).

(** [blockGame] after a click on [(7, 7)]: the flood fill opens every cell
    that is not a mine. *)
Definition clearedGame : GameBoard.t :=
  stateOf (thenReveal 7 7 (mount blockPicks)).




(** ** The rest of the components *)

(** What a [Cell] shows: [cellContent].  A number is shown when it is truthy,
    that is when it is not 0. *)
Inductive Content : Type :=
| Bomb
| Count (n : Z)
| Flag
| Blank.

Definition cellContent (c : CellProps.t) : Content :=
  if CellProps.isRevealed c then
    if CellProps.isMine c then Bomb
    else if negb (CellProps.adjacentMines c =? 0)
         then Count (CellProps.adjacentMines c)
         else Blank
  else if CellProps.isFlagged c then Flag
  else Blank.




(** The [let clickCount] of one render of [GameBoard], and the cells of the
    callbacks its [handleClick] has passed to [setTimeout] and that have not
    run yet, oldest first. *)
Record Taps : Type := {
  clickCount : Z;
  pending : list Pos.t
}.

(** A render starts with [let clickCount = 0]. *)
Definition freshTaps : Taps := {| clickCount := 0; pending := [] |}.

Section Display.
Context (GRID_SIZE : Pos.t) (NUM_MINES : Z).


(** [handleClick(row, col)] *)
Definition handleClick (t : Taps) (s : GameBoard.t) (row col : Z)
    : Taps * Outcome GameBoard.t :=
  let count := clickCount t + 1 in
  if count <? 2 then
    ({| clickCount := count; pending := pending t ++ [Pos.mk row col] |}, Done s)
  else
    ({| clickCount := count; pending := pending t |},
     flagToggleSet GRID_SIZE NUM_MINES s row col).

(** The callback [handleClick] passed to [setTimeout], when its delay has
    passed: the oldest one runs (nothing runs when none is pending). *)
Definition tapTimeout (t : Taps) (s : GameBoard.t) : Taps * Outcome GameBoard.t :=
  match pending t with
  | [] => (t, Done s)
  | p :: rest =>
    ({| clickCount := 0; pending := rest |},
     if clickCount t <? 2
     then revealedCell GRID_SIZE NUM_MINES s (Pos.row p) (Pos.col p)
     else Done s)
  end.

(** [handleDesktopRightClick(event, row, col)] *)
Definition handleDesktopRightClick (s : GameBoard.t) (row col : Z)
    : Outcome GameBoard.t :=
  flagToggleSet GRID_SIZE NUM_MINES s row col.

End Display.

(** The values the [clickCount] and the pending callbacks of one render can
    take, whatever taps and timeouts come, in whatever state of the game. *)
Inductive tapsReachable (GRID_SIZE : Pos.t) (NUM_MINES : Z) : Taps → Prop :=
| taps_fresh : tapsReachable GRID_SIZE NUM_MINES freshTaps
| taps_click t s row col :
    tapsReachable GRID_SIZE NUM_MINES t →
    tapsReachable GRID_SIZE NUM_MINES
      (fst (handleClick GRID_SIZE NUM_MINES t s row col))
| taps_timeout t s :
    tapsReachable GRID_SIZE NUM_MINES t →
    tapsReachable GRID_SIZE NUM_MINES (fst (tapTimeout GRID_SIZE NUM_MINES t s)).

(** How many of [i - 1], [i], [i + 1] are indices below [n]. *)
Definition inRange (n i : Z) : bool := (0 <=? i) && (i <? n).

Definition reachOf (n i : Z) : Z :=
  Z.b2z (inRange n (i - 1)) + Z.b2z (inRange n i) + Z.b2z (inRange n (i + 1)).

(** ** More vocabulary *)

Definition hiddenAt (board : Board) (p : Pos.t) : Prop :=
  ∃ c, cellAt board p = Some c ∧ CellProps.isRevealed c = false.

(** Every cell the fill started on [surrounding] has newly revealed is at the
    end of a flood path from one of these cells. *)
Definition fillSound (surrounding : list Pos.t) (s s' : GameBoard.t) : Prop :=
  ∀ q, hiddenAt (GameBoard.board s) q → revealedAt (GameBoard.board s') q →
       ∃ p, p ∈ surrounding ∧ floodable (GameBoard.board s) p ∧
            floodPath (GameBoard.board s) p q.

(** The coordinates stored in a cell are next to it. *)
Definition storedNear (board : Board) : Prop :=
  ∀ p c q, cellAt board p = Some c → q ∈ CellProps.surroundingCells c → near p q.

(** What a handler other than a losing click may do to a cell: nothing,
    reveal it when it is hidden, unflagged and not a mine, or change its flag
    when it is hidden. *)
Definition steppedFrom (c c' : CellProps.t) : Prop :=
  c' = c ∨
  (CellProps.isRevealed c = false ∧
   ((CellProps.isFlagged c = false ∧ CellProps.isMine c = false ∧
     c' = CellProps.setRevealed true c) ∨
    ∃ v, c' = CellProps.setFlagged v c)).

(** What holds of the flags of the component besides [gameInv]. *)
Record playInv (s : GameBoard.t) : Prop := {
  play_flags_hidden :
    GameBoard.isGameOver s = false →
    ∀ c, c ∈ cells (GameBoard.board s) →
         CellProps.isFlagged c = true → CellProps.isRevealed c = false;
  play_won :
    GameBoard.isGameWon s = true →
    ∀ c, c ∈ cells (GameBoard.board s) →
         CellProps.isMine c = false → CellProps.isRevealed c = true;
  play_lost :
    GameBoard.isGameOver s = true →
    ∃ c, c ∈ cells (GameBoard.board s) ∧
         CellProps.isMine c = true ∧ CellProps.isRevealed c = true;
  play_fresh :
    GameBoard.isGameStart s = false →
    GameBoard.flagCount s = 0 ∧ GameBoard.revealedCount s = 0 ∧
    GameBoard.isGameOver s = false ∧ GameBoard.isGameWon s = false ∧
    ∀ c, c ∈ cells (GameBoard.board s) →
         CellProps.isRevealed c = false ∧ CellProps.isFlagged c = false
}.

(** A cell keeps what [initializeBoard] gave it, and stays revealed once it
    is. *)
Definition fixedFrom (c c' : CellProps.t) : Prop :=
  playedFrom c c' ∧
  (CellProps.isRevealed c = true → CellProps.isRevealed c' = true).

(** A cell keeps its mine, and stays revealed once it is. *)
Definition keptFrom (c c' : CellProps.t) : Prop :=
  CellProps.isMine c' = CellProps.isMine c ∧
  (CellProps.isRevealed c = true → CellProps.isRevealed c' = true).

(** A cell whose flag, if any, sits on a hidden cell stays so. *)
Definition tidyFrom (c c' : CellProps.t) : Prop :=
  (CellProps.isFlagged c = true → CellProps.isRevealed c = false) →
  (CellProps.isFlagged c' = true → CellProps.isRevealed c' = false).

(** * Facts about arrays and boards *)

Lemma bindO_Done {A B} (m : Outcome A) (k : A → Outcome B) (b : B) :
  bindO m k = Done b → ∃ a, m = Done a ∧ k a = Done b.
Proof. destruct m; simpl; intros H; try discriminate. eauto. Qed.

Lemma index_Some {A} (l : list A) (i : Z) (x : A) :
  index l i = Some x ↔ 0 ≤ i ∧ l !! Z.to_nat i = Some x.
Proof.
  unfold index. destruct (Z.leb_spec 0 i); split; intros H'.
  - auto.
  - tauto.
  - discriminate.
  - lia.
Qed.

Lemma index_assign_eq {A} (l : list A) (i : Z) (x y : A) :
  index l i = Some y → index (assign l i x) i = Some x.
Proof.
  rewrite !index_Some. intros [Hi Hl]. split; [done|].
  unfold assign. destruct (Z.leb_spec 0 i); [|lia].
  apply list_lookup_insert_eq. by eapply lookup_lt_Some.
Qed.

Lemma index_assign_ne {A} (l : list A) (i j : Z) (x : A) :
  i ≠ j → index (assign l i x) j = index l j.
Proof.
  intros Hne. unfold index, assign.
  destruct (Z.leb_spec 0 j); [|done].
  destruct (Z.leb_spec 0 i); [|done].
  apply list_lookup_insert_ne. lia.
Qed.

Lemma assign_split {A} (l : list A) (i : Z) (y : A) :
  index l i = Some y →
  l = take (Z.to_nat i) l ++ y :: drop (S (Z.to_nat i)) l ∧
  ∀ x, assign l i x = take (Z.to_nat i) l ++ x :: drop (S (Z.to_nat i)) l.
Proof.
  rewrite index_Some. intros [Hi Hl]. split.
  - by rewrite take_drop_middle.
  - intros x. unfold assign. destruct (Z.leb_spec 0 i); [|lia].
    apply insert_take_drop. by eapply lookup_lt_Some.
Qed.

Lemma cellAt_Some (board : Board) (p : Pos.t) (c : CellProps.t) :
  cellAt board p = Some c ↔
  ∃ r, index board (Pos.row p) = Some r ∧ index r (Pos.col p) = Some c.
Proof.
  unfold cellAt. destruct (index board (Pos.row p)) as [r|]; split.
  - eauto.
  - by intros (r' & [= <-] & ?).
  - discriminate.
  - by intros (r' & [=] & ?).
Qed.

Lemma cellAt_nil (p : Pos.t) : cellAt [] p = None.
Proof. unfold cellAt, index. by destruct (0 <=? Pos.row p). Qed.

Lemma setCell_None (board : Board) (p : Pos.t) (x : CellProps.t) :
  cellAt board p = None → setCell board p x = board.
Proof.
  unfold cellAt, setCell.
  destruct (index board (Pos.row p)) as [r|] eqn:Hr; [|done].
  intros Hc. unfold index in Hr, Hc. unfold assign.
  destruct (Z.leb_spec 0 (Pos.row p)); [|done].
  destruct (Z.leb_spec 0 (Pos.col p)).
  - rewrite (list_insert_ge r); [by apply list_insert_id|].
    by apply lookup_ge_None.
  - by apply list_insert_id.
Qed.

Lemma cellAt_setCell_eq (board : Board) (p : Pos.t) (c x : CellProps.t) :
  cellAt board p = Some c → cellAt (setCell board p x) p = Some x.
Proof.
  rewrite !cellAt_Some. intros (r & Hr & Hc).
  unfold setCell. rewrite Hr. eexists. split.
  - by eapply index_assign_eq.
  - by eapply index_assign_eq.
Qed.

Lemma cellAt_setCell_ne (board : Board) (p q : Pos.t) (x : CellProps.t) :
  p ≠ q → cellAt (setCell board p x) q = cellAt board q.
Proof.
  intros Hne. unfold setCell.
  destruct (index board (Pos.row p)) as [r|] eqn:Hr; [|done].
  unfold cellAt at 1.
  destruct (decide (Pos.row p = Pos.row q)) as [Hrow|Hrow].
  - rewrite <- Hrow. erewrite index_assign_eq by done.
    rewrite index_assign_ne.
    + unfold cellAt. by rewrite <- Hrow, Hr.
    + intros Hcol. apply Hne. destruct p, q; simpl in *; congruence.
  - rewrite index_assign_ne by done. done.
Qed.

Lemma cellAt_setCell (board : Board) (p q : Pos.t) (c x : CellProps.t) :
  cellAt board p = Some c →
  cellAt (setCell board p x) q = if decide (p = q) then Some x else cellAt board q.
Proof.
  intros Hc. case_decide as Hpq.
  - subst q. by eapply cellAt_setCell_eq.
  - by apply cellAt_setCell_ne.
Qed.

Lemma cells_setCell (board : Board) (p : Pos.t) (c : CellProps.t) :
  cellAt board p = Some c →
  ∃ pre post, cells board = pre ++ c :: post ∧
              ∀ x, cells (setCell board p x) = pre ++ x :: post.
Proof.
  rewrite cellAt_Some. intros (r & Hr & Hc).
  destruct (assign_split _ _ _ Hr) as [Hb Hb'].
  destruct (assign_split _ _ _ Hc) as [Hrow Hrow'].
  exists (concat (take (Z.to_nat (Pos.row p)) board) ++ take (Z.to_nat (Pos.col p)) r),
         (drop (S (Z.to_nat (Pos.col p))) r
            ++ concat (drop (S (Z.to_nat (Pos.row p))) board)).
  split.
  - unfold cells. rewrite Hb at 1. rewrite concat_app, concat_cons.
    rewrite Hrow at 1. by rewrite <- !app_assoc.
  - intros x. unfold cells, setCell. rewrite Hr, Hb', Hrow'.
    rewrite concat_app, concat_cons. by rewrite <- !app_assoc.
Qed.

Lemma elem_of_cells (board : Board) (c : CellProps.t) :
  c ∈ cells board ↔ ∃ p, cellAt board p = Some c.
Proof.
  unfold cells. rewrite list_elem_of_In, in_concat.
  setoid_rewrite <- list_elem_of_In. split.
  - intros (r & Hr & Hc).
    apply list_elem_of_lookup in Hr as [i Hi].
    apply list_elem_of_lookup in Hc as [j Hj].
    exists (Pos.mk (Z.of_nat i) (Z.of_nat j)).
    apply cellAt_Some. exists r. rewrite !index_Some; simpl.
    rewrite !Nat2Z.id. repeat split; auto with lia.
  - intros (p & Hp). apply cellAt_Some in Hp as (r & Hr & Hc).
    apply index_Some in Hr as [_ Hr]. apply index_Some in Hc as [_ Hc].
    exists r. split; eapply list_elem_of_lookup; eauto.
Qed.

Lemma cellAt_mapCells (f : CellProps.t → CellProps.t) (board : Board) (p : Pos.t) :
  cellAt (mapCells f board) p = f <$> cellAt board p.
Proof.
  unfold cellAt, mapCells, index.
  destruct (Z.leb_spec 0 (Pos.row p)); [|done].
  rewrite list_lookup_fmap.
  destruct (board !! Z.to_nat (Pos.row p)) as [r|]; simpl; [|done].
  destruct (Z.leb_spec 0 (Pos.col p)); [|done].
  by rewrite list_lookup_fmap.
Qed.

Lemma cells_mapCells (f : CellProps.t → CellProps.t) (board : Board) :
  cells (mapCells f board) = f <$> cells board.
Proof.
  unfold cells, mapCells. induction board as [|r b IH]; simpl; [done|].
  rewrite fmap_app. f_equal. exact IH.
Qed.

Lemma length_cells_setCell (board : Board) (p : Pos.t) (x : CellProps.t) :
  length (cells (setCell board p x)) = length (cells board).
Proof.
  destruct (cellAt board p) as [c|] eqn:Hc.
  - destruct (cells_setCell _ _ _ Hc) as (pre & post & -> & ->).
    by rewrite !length_app.
  - by rewrite setCell_None.
Qed.

Lemma length_cells_mapCells (f : CellProps.t → CellProps.t) (board : Board) :
  length (cells (mapCells f board)) = length (cells board).
Proof. by rewrite cells_mapCells, length_fmap. Qed.

Lemma count_list_cons (f : CellProps.t → bool) (c : CellProps.t) (l : list CellProps.t) :
  Z.of_nat (length (filter (λ c, f c = true) (c :: l)))
  = Z.b2z (f c) + Z.of_nat (length (filter (λ c, f c = true) l)).
Proof.
  destruct (f c) eqn:Hf; simpl.
  - rewrite filter_cons_True by done. rewrite length_cons. lia.
  - rewrite filter_cons_False by congruence. done.
Qed.

Lemma count_list_app (f : CellProps.t → bool) (l1 l2 : list CellProps.t) :
  Z.of_nat (length (filter (λ c, f c = true) (l1 ++ l2)))
  = Z.of_nat (length (filter (λ c, f c = true) l1))
    + Z.of_nat (length (filter (λ c, f c = true) l2)).
Proof. rewrite filter_app, length_app. lia. Qed.

Lemma countCells_setCell (f : CellProps.t → bool) (board : Board) (p : Pos.t)
    (c x : CellProps.t) :
  cellAt board p = Some c →
  countCells f (setCell board p x) = countCells f board - Z.b2z (f c) + Z.b2z (f x).
Proof.
  intros Hc. unfold countCells.
  destruct (cells_setCell _ _ _ Hc) as (pre & post & -> & ->).
  rewrite !count_list_app, !count_list_cons. lia.
Qed.

Lemma countCells_bounds (f : CellProps.t → bool) (board : Board) :
  0 ≤ countCells f board ≤ Z.of_nat (length (cells board)).
Proof.
  unfold countCells. split; [lia|].
  apply inj_le, length_filter.
Qed.

Lemma countCells_ext (f g : CellProps.t → bool) (board : Board) :
  (∀ c, c ∈ cells board → f c = g c) → countCells f board = countCells g board.
Proof.
  unfold countCells. induction (cells board) as [|c l IH]; intros H; [done|].
  rewrite !count_list_cons, H by left.
  f_equal. apply IH. intros c' Hc'. apply H. by right.
Qed.

Lemma countCells_mapCells (f : CellProps.t → bool) (g : CellProps.t → CellProps.t)
    (board : Board) :
  countCells f (mapCells g board) = countCells (λ c, f (g c)) board.
Proof.
  unfold countCells. rewrite cells_mapCells.
  induction (cells board) as [|c l IH]; [done|].
  rewrite fmap_cons, !count_list_cons. by f_equal.
Qed.

Lemma countCells_none (f : CellProps.t → bool) (board : Board) :
  (∀ c, c ∈ cells board → f c = false) → countCells f board = 0.
Proof.
  unfold countCells. induction (cells board) as [|c l IH]; intros H; [done|].
  rewrite count_list_cons, H by left. simpl.
  apply IH. intros c' Hc'. apply H. by right.
Qed.

Lemma countCells_all (f : CellProps.t → bool) (board : Board) :
  (∀ c, c ∈ cells board → f c = true) →
  countCells f board = Z.of_nat (length (cells board)).
Proof.
  unfold countCells. induction (cells board) as [|c l IH]; intros H; [done|].
  rewrite count_list_cons, H by left. simpl.
  rewrite IH; [lia|]. intros c' Hc'. apply H. by right.
Qed.

Lemma countCells_zero_inv (f : CellProps.t → bool) (board : Board) (c : CellProps.t) :
  countCells f board = 0 → c ∈ cells board → f c = false.
Proof.
  unfold countCells. induction (cells board) as [|c' l IH]; intros H Hc.
  - by apply elem_of_nil in Hc.
  - rewrite count_list_cons in H.
    assert (0 ≤ Z.b2z (f c')) by (destruct (f c'); simpl; lia).
    apply elem_of_cons in Hc as [->|Hc].
    + destruct (f c'); [simpl in *; lia|done].
    + apply IH; [lia|done].
Qed.

(** A split of the count along a second test. *)
Lemma countCells_split (f g : CellProps.t → bool) (board : Board) :
  countCells f board
  = countCells (λ c, f c && g c) board + countCells (λ c, f c && negb (g c)) board.
Proof.
  unfold countCells. induction (cells board) as [|c l IH]; [done|].
  rewrite !count_list_cons, IH. destruct (f c), (g c); simpl; lia.
Qed.

Lemma elem_of_indices (board : Board) (p : Pos.t) :
  p ∈ indices board ↔ is_Some (cellAt board p).
Proof.
  unfold indices. rewrite list_elem_of_In, in_concat.
  setoid_rewrite <- list_elem_of_In. split.
  - intros (l & Hl & Hp).
    apply elem_of_lookup_imap in Hl as (i & r & -> & Hr).
    apply elem_of_lookup_imap in Hp as (j & c & -> & Hc).
    exists c. apply cellAt_Some. exists r. rewrite !index_Some; simpl.
    rewrite !Nat2Z.id. auto with lia.
  - intros [c Hc]. apply cellAt_Some in Hc as (r & Hr & Hc).
    apply index_Some in Hr as [? Hr]. apply index_Some in Hc as [? Hc].
    eexists. split.
    + eapply elem_of_lookup_imap. eauto.
    + eapply elem_of_lookup_imap. exists (Z.to_nat (Pos.col p)), c.
      split; [|done]. destruct p; simpl in *. f_equal; lia.
Qed.

(** ** Boards that differ cell by cell *)

Section BoardRel.
Context (R : CellProps.t → CellProps.t → Prop).

Lemma boardRel_refl (b : Board) : (∀ c, R c c) → boardRel R b b.
Proof.
  intros HR. apply Forall_Forall2_diag, Forall_forall. intros r _.
  apply Forall_Forall2_diag, Forall_forall. auto.
Qed.

Lemma boardRel_trans (b1 b2 b3 : Board) :
  (∀ c1 c2 c3, R c1 c2 → R c2 c3 → R c1 c3) →
  boardRel R b1 b2 → boardRel R b2 b3 → boardRel R b1 b3.
Proof.
  intros HR H12. revert b3. induction H12 as [|r1 r2 b1 b2 Hr _ IH];
    intros b3 H23; inversion H23 as [|? r3 ? b3' Hr' Hb']; subst.
  - constructor.
  - constructor; [|by apply IH].
    clear -HR Hr Hr'. revert r3 Hr'.
    induction Hr; intros r3 Hr'; inversion Hr'; subst; constructor; eauto.
Qed.

Lemma boardRel_impl (R' : CellProps.t → CellProps.t → Prop) (b b' : Board) :
  (∀ c c', R c c' → R' c c') → boardRel R b b' → boardRel R' b b'.
Proof.
  intros HR H. eapply Forall2_impl; [exact H|].
  intros r r' Hr. eapply Forall2_impl; [exact Hr|done].
Qed.

Lemma boardRel_index (b b' : Board) (i : Z) :
  boardRel R b b' → option_Forall2 (Forall2 R) (index b i) (index b' i).
Proof.
  intros H. unfold index. destruct (0 <=? i); [|constructor].
  by apply Forall2_lookup.
Qed.

Lemma boardRel_cellAt (b b' : Board) (p : Pos.t) :
  boardRel R b b' → option_Forall2 R (cellAt b p) (cellAt b' p).
Proof.
  intros H. unfold cellAt.
  destruct (boardRel_index _ _ (Pos.row p) H) as [r r' Hr|]; [|constructor].
  unfold index. destruct (0 <=? Pos.col p); [|constructor].
  by apply Forall2_lookup.
Qed.

Lemma boardRel_cellAt_r (b b' : Board) (p : Pos.t) (c' : CellProps.t) :
  boardRel R b b' → cellAt b' p = Some c' →
  ∃ c, cellAt b p = Some c ∧ R c c'.
Proof.
  intros H Hc'. pose proof (boardRel_cellAt _ _ p H) as Hp.
  rewrite Hc' in Hp. inversion Hp; subst. eauto.
Qed.

Lemma boardRel_cellAt_l (b b' : Board) (p : Pos.t) (c : CellProps.t) :
  boardRel R b b' → cellAt b p = Some c →
  ∃ c', cellAt b' p = Some c' ∧ R c c'.
Proof.
  intros H Hc. pose proof (boardRel_cellAt _ _ p H) as Hp.
  rewrite Hc in Hp. inversion Hp; subst. eauto.
Qed.

Lemma boardRel_cells (b b' : Board) :
  boardRel R b b' → Forall2 R (cells b) (cells b').
Proof.
  unfold cells. induction 1; simpl; [constructor|]. by apply Forall2_app.
Qed.

Lemma boardRel_length_cells (b b' : Board) :
  boardRel R b b' → length (cells b') = length (cells b).
Proof. intros H. symmetry. eapply Forall2_length, boardRel_cells, H. Qed.

Lemma boardRel_cells_r (b b' : Board) (c' : CellProps.t) :
  boardRel R b b' → c' ∈ cells b' → ∃ c, c ∈ cells b ∧ R c c'.
Proof.
  intros H Hc'. apply elem_of_cells in Hc' as [p Hp].
  destruct (boardRel_cellAt_r _ _ _ _ H Hp) as (c & Hc & HR).
  exists c. split; [|done]. apply elem_of_cells. eauto.
Qed.

Lemma boardRel_countCells (f : CellProps.t → bool) (b b' : Board) :
  (∀ c c', R c c' → f c = f c') →
  boardRel R b b' → countCells f b = countCells f b'.
Proof.
  intros Hf H. apply boardRel_cells in H. unfold countCells.
  induction H as [|c c' l l' Hc _ IH]; [done|].
  rewrite !count_list_cons, (Hf _ _ Hc). lia.
Qed.

Lemma boardRel_setCell (b : Board) (p : Pos.t) (c x : CellProps.t) :
  (∀ c, R c c) → cellAt b p = Some c → R c x → boardRel R b (setCell b p x).
Proof.
  intros HR Hc Hx. apply cellAt_Some in Hc as (r & Hr & Hc).
  unfold setCell. rewrite Hr.
  apply index_Some in Hr as [Hi Hr]. apply index_Some in Hc as [Hj Hc].
  unfold assign. rewrite !(proj2 (Z.leb_le 0 _)) by done.
  rewrite <- (list_insert_id b _ _ Hr) at 1.
  apply Forall2_insert; [by apply boardRel_refl|].
  rewrite <- (list_insert_id r _ _ Hc) at 1.
  apply Forall2_insert; [|done].
  apply Forall_Forall2_diag, Forall_forall. auto.
Qed.

Lemma boardRel_mapCells (f : CellProps.t → CellProps.t) (b : Board) :
  (∀ c, R c (f c)) → boardRel R b (mapCells f b).
Proof.
  intros HR. unfold boardRel, mapCells.
  apply Forall2_fmap_r, Forall_Forall2_diag, Forall_forall. intros r _.
  apply Forall2_fmap_r, Forall_Forall2_diag, Forall_forall. auto.
Qed.
End BoardRel.

(** * Board generation *)

Lemma elem_of_offsets (i j : Z) :
  (i, j) ∈ offsets ↔ -1 ≤ i ≤ 1 ∧ -1 ≤ j ≤ 1.
Proof.
  change offsets with
    [(-1, -1); (-1, 0); (-1, 1); (0, -1); (0, 0); (0, 1); (1, -1); (1, 0); (1, 1)].
  rewrite !elem_of_cons, elem_of_nil. split.
  - intros H. repeat (destruct H as [H|H]; [simplify_eq; lia|]). done.
  - intros [Hi Hj].
    assert (i = -1 ∨ i = 0 ∨ i = 1) as [-> | [-> | ->]] by lia;
    assert (j = -1 ∨ j = 0 ∨ j = 1) as [-> | [-> | ->]] by lia; tauto.
Qed.

Lemma mineCount_app (board : Board) (l1 l2 : list Pos.t) :
  mineCount board (l1 ++ l2) = mineCount board l1 + mineCount board l2.
Proof. unfold mineCount. rewrite filter_app, length_app. lia. Qed.

Lemma mineCount_cons (board : Board) (p : Pos.t) (ps : list Pos.t) :
  mineCount board (p :: ps) = Z.b2z (isMineAt board p) + mineCount board ps.
Proof.
  unfold mineCount. destruct (isMineAt board p) eqn:Hp; simpl.
  - rewrite filter_cons_True by done. rewrite length_cons. lia.
  - rewrite filter_cons_False by congruence. done.
Qed.

Lemma mineCount_nil (board : Board) : mineCount board [] = 0.
Proof. done. Qed.

Lemma mineCount_ext (b b' : Board) (ps : list Pos.t) :
  (∀ p, isMineAt b p = isMineAt b' p) → mineCount b ps = mineCount b' ps.
Proof.
  intros H. unfold mineCount. f_equal. f_equal.
  apply list_filter_iff. intros p. by rewrite H.
Qed.

Lemma isMineAt_boardRel (R : CellProps.t → CellProps.t → Prop) (b b' : Board) (p : Pos.t) :
  (∀ c c', R c c' → CellProps.isMine c' = CellProps.isMine c) →
  boardRel R b b' → isMineAt b' p = isMineAt b p.
Proof.
  intros HR H. unfold isMineAt.
  destruct (boardRel_cellAt R _ _ p H) as [c c' Hc|]; [|done]. by apply HR.
Qed.

Lemma forEachO_app {A S} (f : A → S → Outcome S) (l1 l2 : list A) (s : S) :
  forEachO f (l1 ++ l2) s = (s' ←' forEachO f l1 s; forEachO f l2 s').
Proof.
  revert s. induction l1 as [|x l1 IH]; intros s; simpl; [done|].
  destruct (f x s); simpl; auto.
Qed.

Section Generation.
Context (GRID_SIZE : Pos.t) (NUM_MINES : Z).

Local Abbreviation rows := (Pos.row GRID_SIZE).
Local Abbreviation cols := (Pos.col GRID_SIZE).

Lemma inGrid_true (r c : Z) :
  inGrid GRID_SIZE r c = true ↔ 0 ≤ r < rows ∧ 0 ≤ c < cols.
Proof. unfold inGrid. rewrite !andb_true_iff. lia. Qed.

Lemma onGrid_iff (p : Pos.t) :
  onGrid GRID_SIZE p ↔ 0 ≤ Pos.row p < rows ∧ 0 ≤ Pos.col p < cols.
Proof. apply inGrid_true. Qed.

Lemma elem_of_surroundingCells (row col : Z) (q : Pos.t) :
  q ∈ surroundingCells GRID_SIZE row col ↔
  onGrid GRID_SIZE q ∧ near (Pos.mk row col) q.
Proof.
  unfold surroundingCells, near, onGrid. rewrite list_elem_of_bind. simpl. split.
  - intros ([i j] & Hq & Hij). apply elem_of_offsets in Hij.
    destruct (inGrid GRID_SIZE (row + i) (col + j)) eqn:Hin.
    + apply list_elem_of_singleton in Hq as ->. simpl. split; [done|lia].
    + by apply elem_of_nil in Hq.
  - intros [Hin Hnear]. exists (Pos.row q - row, Pos.col q - col). split.
    + replace (row + (Pos.row q - row)) with (Pos.row q) by lia.
      replace (col + (Pos.col q - col)) with (Pos.col q) by lia.
      rewrite Hin. destruct q. by apply list_elem_of_singleton.
    + apply elem_of_offsets. lia.
Qed.

Lemma gridBoard_boardRel (R : CellProps.t → CellProps.t → Prop) (b b' : Board) :
  boardRel R b b' → gridBoard GRID_SIZE b → gridBoard GRID_SIZE b'.
Proof.
  intros H Hg p. rewrite <- (Hg p).
  destruct (boardRel_cellAt R _ _ p H); split; intros [? ?]; eauto; done.
Qed.

(** [adjacentMines] counts the mines of the board over the coordinates that
    [surroundingCells] lists. *)
Lemma adjacentMines_spec (row col : Z) (board : Board) :
  gridBoard GRID_SIZE board →
  adjacentMines GRID_SIZE row col board
  = Done (mineCount board (surroundingCells GRID_SIZE row col)).
Proof.
  intros Hg. unfold adjacentMines, surroundingCells.
  rewrite <- (Z.add_0_l (mineCount _ _)). generalize 0 as count.
  induction offsets as [|[i j] offs IH]; intros count.
  - simpl. f_equal. rewrite mineCount_nil. lia.
  - rewrite bind_cons, mineCount_app. cbn [forEachO].
    destruct (inGrid GRID_SIZE (row + i) (col + j)) eqn:Hin.
    + destruct (proj2 (Hg (Pos.mk (row + i) (col + j))) Hin) as [c Hc].
      rewrite Hc. cbn [bindO]. rewrite IH. f_equal.
      rewrite mineCount_cons, mineCount_nil. unfold isMineAt.
      rewrite Hc. destruct (CellProps.isMine c); simpl; lia.
    + cbn [bindO]. rewrite IH. f_equal.
Qed.
(** The array of arrays [initializeBoard] allocates. *)
Lemma cellAt_blank (x : CellProps.t) (p : Pos.t) :
  cellAt (replicate (Z.to_nat rows) (replicate (Z.to_nat cols) x)) p
  = if inGrid GRID_SIZE (Pos.row p) (Pos.col p) then Some x else None.
Proof.
  destruct (inGrid GRID_SIZE (Pos.row p) (Pos.col p)) eqn:Hin.
  - apply inGrid_true in Hin. apply cellAt_Some.
    exists (replicate (Z.to_nat cols) x). rewrite !index_Some.
    rewrite !lookup_replicate_2 by lia. auto with lia.
  - destruct (cellAt _ p) as [c|] eqn:Hc; [|done].
    apply cellAt_Some in Hc as (r & Hr & Hc).
    apply index_Some in Hr as [? Hr]. apply lookup_replicate in Hr as [-> ?].
    apply index_Some in Hc as [? Hc]. apply lookup_replicate in Hc as [-> ?].
    assert (inGrid GRID_SIZE (Pos.row p) (Pos.col p) = true)
      by (apply inGrid_true; lia).
    congruence.
Qed.

Lemma gridBoard_blank (x : CellProps.t) :
  gridBoard GRID_SIZE (replicate (Z.to_nat rows) (replicate (Z.to_nat cols) x)).
Proof.
  intros p. rewrite cellAt_blank. unfold onGrid.
  destruct (inGrid GRID_SIZE _ _); split; intros H; eauto; try done.
Qed.

Lemma cells_blank (x c : CellProps.t) :
  c ∈ cells (replicate (Z.to_nat rows) (replicate (Z.to_nat cols) x)) → c = x.
Proof.
  intros [p Hp]%elem_of_cells. rewrite cellAt_blank in Hp.
  destruct (inGrid GRID_SIZE _ _); congruence.
Qed.

Lemma length_cells_blank (x : CellProps.t) :
  0 ≤ rows →
  Z.of_nat (length (cells (replicate (Z.to_nat rows) (replicate (Z.to_nat cols) x))))
  = rows * Z.max 0 cols.
Proof.
  intros Hr. unfold cells.
  assert (∀ n, length (concat (replicate n (replicate (Z.to_nat cols) x)))
               = (n * Z.to_nat cols)%nat) as ->.
  { induction n as [|n IH]; simpl; [done|].
    by rewrite length_app, length_replicate, IH. }
  lia.
Qed.

(** *** [setMines] *)

Lemma minedFrom_refl (c : CellProps.t) : minedFrom c c.
Proof. by left. Qed.

Lemma minedFrom_trans (c1 c2 c3 : CellProps.t) :
  minedFrom c1 c2 → minedFrom c2 c3 → minedFrom c1 c3.
Proof.
  unfold minedFrom. intros [->| ->] [->| ->]; auto.
Qed.

Lemma countCells_place_mine (board : Board) (p : Pos.t) (c : CellProps.t) :
  cellAt board p = Some c → CellProps.isMine c = false →
  countCells CellProps.isMine (setCell board p (CellProps.setMine true c))
  = countCells CellProps.isMine board + 1.
Proof.
  intros Hc Hmine. rewrite (countCells_setCell _ _ _ _ _ Hc), Hmine. simpl. lia.
Qed.

Lemma setMines_loop_spec (numMines : Z) (picks : list Pos.t) :
  ∀ (minesPlaced : Z) (board board' : Board),
    setMines_loop numMines picks minesPlaced board = Done board' →
    boardRel minedFrom board board' ∧
    countCells CellProps.isMine board'
    = countCells CellProps.isMine board + Z.max 0 (numMines - minesPlaced).
Proof.
  induction picks as [|p picks IH]; intros placed b b'; simpl;
    destruct (Z.ltb_spec placed numMines) as [Hlt|Hge]; intros Hrun.
  - discriminate.
  - injection Hrun as <-. split; [apply boardRel_refl, minedFrom_refl|lia].
  - destruct b as [|r0 b0]; [discriminate|].
    destruct (cellAt (r0 :: b0) p) as [c|] eqn:Hc; [|discriminate].
    destruct (CellProps.isMine c) eqn:Hmine.
    + by apply IH.
    + apply IH in Hrun as [Hrel Hcount]. split.
      * eapply boardRel_trans; [apply minedFrom_trans| |exact Hrel].
        eapply boardRel_setCell; [apply minedFrom_refl|exact Hc|by right].
      * rewrite Hcount.
        rewrite (countCells_place_mine _ _ _ Hc Hmine). lia.
  - injection Hrun as <-. split; [apply boardRel_refl, minedFrom_refl|lia].
Qed.

Lemma NoDup_drop_one (p : Pos.t) (l : list Pos.t) :
  NoDup l → (length l ≤ S (length (filter (λ q, q ≠ p) l)))%nat.
Proof.
  induction 1 as [|q l Hq Hl IH]; simpl; [lia|].
  destruct (decide (q = p)) as [->|Hne].
  - rewrite filter_cons_False by tauto.
    assert (filter (λ q, q ≠ p) l = l) as ->; [|lia].
    clear IH Hl. induction l as [|q l IH]; [done|].
    rewrite filter_cons_True.
    + f_equal. apply IH. intros ?. apply Hq. by right.
    + intros ->. apply Hq. by left.
  - rewrite filter_cons_True by done. simpl. lia.
Qed.

(** The loop finishes within any run of picks that holds enough distinct
    cells still free of mines. *)
Lemma setMines_loop_finishes (numMines : Z) (picks : list Pos.t) :
  ∀ (minesPlaced : Z) (board : Board) (free : list Pos.t),
    NoDup free →
    (∀ p, p ∈ free → p ∈ picks ∧ isMineAt board p = false) →
    numMines ≤ minesPlaced + Z.of_nat (length free) →
    (∀ p, p ∈ picks → is_Some (cellAt board p)) →
    ∃ board', setMines_loop numMines picks minesPlaced board = Done board'.
Proof.
  induction picks as [|p picks IH]; intros placed b free Hnd Hfree Hlen Hon; simpl;
    destruct (Z.ltb_spec placed numMines) as [Hlt|Hge]; eauto.
  - destruct free as [|q free]; [simpl in Hlen; lia|].
    destruct (Hfree q) as [Hq _]; [by left|]. by apply elem_of_nil in Hq.
  - destruct (Hon p) as [c Hc]; [by left|].
    destruct b as [|r0 b0]; [by rewrite cellAt_nil in Hc|]. rewrite Hc.
    destruct (CellProps.isMine c) eqn:Hmine.
    + apply (IH _ _ free); auto.
      * intros q Hq. destruct (Hfree q Hq) as [Hin Hm]. split; [|done].
        apply elem_of_cons in Hin as [->|Hin]; [|done].
        unfold isMineAt in Hm. rewrite Hc in Hm. congruence.
      * intros q Hq. apply Hon. by right.
    + apply (IH _ _ (filter (λ q, q ≠ p) free)).
      * by apply NoDup_filter.
      * intros q [Hne Hq]%list_elem_of_filter.
        destruct (Hfree q Hq) as [Hin Hm]. split.
        -- apply elem_of_cons in Hin as [->|Hin]; [done|done].
        -- unfold isMineAt. rewrite cellAt_setCell_ne by done. exact Hm.
      * pose proof (NoDup_drop_one p free Hnd). lia.
      * intros q Hq. rewrite (cellAt_setCell _ _ _ _ _ Hc).
        case_decide; [done|]. apply Hon. by right.
Qed.

Lemma countCells_lt_exists (f : CellProps.t → bool) (board : Board) :
  countCells f board < Z.of_nat (length (cells board)) →
  ∃ p c, cellAt board p = Some c ∧ f c = false.
Proof.
  intros Hlt.
  assert (∃ c, c ∈ cells board ∧ f c = false) as (c & Hc & Hf).
  { unfold countCells in Hlt. induction (cells board) as [|c l IH].
    - simpl in Hlt. lia.
    - rewrite count_list_cons in Hlt. destruct (f c) eqn:Hf.
      + destruct IH as (c' & ? & ?); [simpl in *; lia|].
        exists c'. split; [by right|done].
      + exists c. split; [by left|done]. }
  apply elem_of_cells in Hc as [p Hp]. eauto.
Qed.

(** Whatever has been drawn so far, some further picks let the loop finish,
    as long as the board has room for the mines still to place. *)
Lemma setMines_loop_can_finish (numMines : Z) (picks : list Pos.t) :
  ∀ (minesPlaced : Z) (board : Board),
    countCells CellProps.isMine board + (numMines - minesPlaced)
      ≤ Z.of_nat (length (cells board)) →
    (∀ p, p ∈ picks → is_Some (cellAt board p)) →
    ∃ more board',
      (∀ p, p ∈ more → is_Some (cellAt board p)) ∧
      setMines_loop numMines (picks ++ more) minesPlaced board = Done board'.
Proof.
  induction picks as [|p picks IH]; intros placed b Hroom Hon.
  - simpl. clear Hon.
    remember (Z.to_nat (numMines - placed)) as k eqn:Hk.
    revert placed b Hroom Hk. induction k as [|k IHk]; intros placed b Hroom Hk.
    + exists [], b. split; [by intros ? ?%elem_of_nil|]. simpl.
      destruct (Z.ltb_spec placed numMines); [lia|done].
    + destruct (countCells_lt_exists CellProps.isMine b) as (p & c & Hc & Hmine);
        [lia|].
      destruct (IHk (placed + 1) (setCell b p (CellProps.setMine true c)))
        as (more & b' & Hmore & Hrun); [| lia |].
      { rewrite (countCells_place_mine _ _ _ Hc Hmine), length_cells_setCell. lia. }
      exists (p :: more), b'. split.
      * intros q [->|Hq]%elem_of_cons; [eauto|].
        specialize (Hmore q Hq). rewrite (cellAt_setCell _ _ _ _ _ Hc) in Hmore.
        case_decide; [subst; eauto|done].
      * simpl. destruct (Z.ltb_spec placed numMines); [|lia].
        destruct b as [|r0 b0]; [by rewrite cellAt_nil in Hc|]. by rewrite Hc, Hmine.
  - simpl. destruct (Z.ltb_spec placed numMines) as [Hlt|Hge].
    + destruct (Hon p) as [c Hc]; [by left|].
      destruct b as [|r0 b0]; [by rewrite cellAt_nil in Hc|]. rewrite Hc.
      destruct (CellProps.isMine c) eqn:Hmine.
      * apply IH; [done|]. intros q Hq. apply Hon. by right.
      * destruct (IH (placed + 1) (setCell (r0 :: b0) p (CellProps.setMine true c)))
          as (more & b' & Hmore & Hrun).
        { rewrite (countCells_place_mine _ _ _ Hc Hmine), length_cells_setCell.
          lia. }
        { intros q Hq. rewrite (cellAt_setCell _ _ _ _ _ Hc).
          case_decide; [done|]. apply Hon. by right. }
        exists more, b'. split; [|done].
        intros q Hq. specialize (Hmore q Hq).
        rewrite (cellAt_setCell _ _ _ _ _ Hc) in Hmore.
        case_decide; [subst; eauto|done].
    + exists [], b. split; [by intros ? ?%elem_of_nil|done].
Qed.

(** *** The second pass of [initializeBoard] *)

Lemma annotatedFrom_refl (c : CellProps.t) : annotatedFrom c c.
Proof. by repeat split. Qed.

Lemma annotatedFrom_trans (c1 c2 c3 : CellProps.t) :
  annotatedFrom c1 c2 → annotatedFrom c2 c3 → annotatedFrom c1 c3.
Proof. unfold annotatedFrom. intros (? & ? & ?) (? & ? & ?). repeat split; congruence. Qed.

Lemma annotatedAt_mines (b b' : Board) (p : Pos.t) (c : CellProps.t) :
  (∀ q, isMineAt b' q = isMineAt b q) →
  annotatedAt GRID_SIZE b p c → annotatedAt GRID_SIZE b' p c.
Proof.
  intros Hm [Hs Ha]. split; [done|]. intros Hc.
  rewrite (mineCount_ext b' b) by done. auto.
Qed.

Lemma annotateCell_spec (p : Pos.t) (b b1 : Board) :
  gridBoard GRID_SIZE b → annotateCell GRID_SIZE p b = Done b1 →
  boardRel annotatedFrom b b1 ∧
  ∀ q, (q = p ∨ ∀ c, cellAt b q = Some c → annotatedAt GRID_SIZE b q c) →
       ∀ c, cellAt b1 q = Some c → annotatedAt GRID_SIZE b1 q c.
Proof.
  intros Hg. unfold annotateCell.
  destruct (cellAt b p) as [cell|] eqn:Hcell; [|discriminate].
  intros (n & Hn & [= <-])%bindO_Done.
  assert (boardRel annotatedFrom b
            (setCell b p
               (CellProps.setAdjacent n
                  (surroundingCells GRID_SIZE (Pos.row p) (Pos.col p)) cell)))
    as Hrel.
  { eapply boardRel_setCell; [apply annotatedFrom_refl|exact Hcell|].
    by repeat split. }
  split; [done|].
  assert (∀ q, isMineAt (setCell b p
            (CellProps.setAdjacent n
               (surroundingCells GRID_SIZE (Pos.row p) (Pos.col p)) cell)) q
          = isMineAt b q) as Hmines.
  { intros q. eapply isMineAt_boardRel; [|exact Hrel]. by intros ? ? (? & ? & ?). }
  intros q Hq c. rewrite (cellAt_setCell _ _ _ _ _ Hcell).
  case_decide as Hpq.
  - subst q. intros [= <-]. split; [done|]. simpl. intros Hmine.
    rewrite Hmine in Hn. rewrite adjacentMines_spec in Hn by done.
    injection Hn as <-. by apply mineCount_ext.
  - intros Hc. destruct Hq as [->|Hq]; [done|].
    eapply annotatedAt_mines; [exact Hmines|]. by apply Hq.
Qed.

Lemma annotate_pass_spec (ps : list Pos.t) :
  ∀ b b' : Board,
    gridBoard GRID_SIZE b → forEachO (annotateCell GRID_SIZE) ps b = Done b' →
    boardRel annotatedFrom b b' ∧
    ∀ q, (q ∈ ps ∨ ∀ c, cellAt b q = Some c → annotatedAt GRID_SIZE b q c) →
         ∀ c, cellAt b' q = Some c → annotatedAt GRID_SIZE b' q c.
Proof.
  induction ps as [|p ps IH]; intros b b' Hg; simpl.
  - intros [= <-]. split; [apply boardRel_refl, annotatedFrom_refl|].
    intros q [Hq|Hq]; [by apply elem_of_nil in Hq|done].
  - intros (b1 & Hstep & Hrest)%bindO_Done.
    destruct (annotateCell_spec _ _ _ Hg Hstep) as [Hrel1 Hann1].
    destruct (IH _ _ (gridBoard_boardRel _ _ _ Hrel1 Hg) Hrest) as [Hrel Hann].
    split.
    + eapply boardRel_trans; [apply annotatedFrom_trans|exact Hrel1|exact Hrel].
    + intros q Hq. apply Hann.
      destruct Hq as [[->|Hq]%elem_of_cons|Hq]; [|by left|]; right; apply Hann1; auto.
Qed.

Lemma annotate_pass_Done (ps : list Pos.t) :
  ∀ b : Board,
    gridBoard GRID_SIZE b → (∀ p, p ∈ ps → is_Some (cellAt b p)) →
    ∃ b', forEachO (annotateCell GRID_SIZE) ps b = Done b'.
Proof.
  induction ps as [|p ps IH]; intros b Hg Hon; simpl; [eauto|].
  destruct (Hon p) as [cell Hcell]; [by left|].
  assert (∃ b1, annotateCell GRID_SIZE p b = Done b1) as [b1 Hb1].
  { unfold annotateCell. rewrite Hcell.
    destruct (CellProps.isMine cell); simpl; [eauto|].
    rewrite adjacentMines_spec by done. simpl. eauto. }
  rewrite Hb1. simpl.
  destruct (annotateCell_spec _ _ _ Hg Hb1) as [Hrel _].
  apply IH; [by eapply gridBoard_boardRel|].
  intros q Hq. destruct (Hon q) as [c Hc]; [by right|].
  destruct (boardRel_cellAt_l _ _ _ _ _ Hrel Hc) as (c' & -> & _). eauto.
Qed.

(** *** [initializeBoard] *)

(** What every board that [initializeBoard] returns looks like. *)
Lemma initializeBoard_spec (picks : list Pos.t) (board : Board) :
  initializeBoard GRID_SIZE NUM_MINES picks = Done board →
  gridBoard GRID_SIZE board ∧
  Z.of_nat (length (cells board)) = rows * cols ∧
  (∀ c, c ∈ cells board →
        CellProps.isRevealed c = false ∧ CellProps.isFlagged c = false) ∧
  (∀ p c, cellAt board p = Some c → annotatedAt GRID_SIZE board p c) ∧
  countCells CellProps.isMine board = Z.max 0 NUM_MINES.
Proof.
  unfold initializeBoard.
  destruct (_ || _) eqn:Hdims; [discriminate|].
  apply orb_false_iff in Hdims as [Hrows Hcols].
  apply Z.ltb_ge in Hrows. apply andb_false_iff in Hcols.
  intros (b1 & Hmines & Hpass)%bindO_Done.
  apply setMines_loop_spec in Hmines as [Hrel1 Hcount].
  pose proof (gridBoard_boardRel _ _ _ Hrel1 (gridBoard_blank initializeCell)) as Hg1.
  assert (∀ p, p ∈ indices b1 ↔ is_Some (cellAt b1 p)) as Hidx
    by apply elem_of_indices.
  destruct (annotate_pass_spec _ _ _ Hg1 Hpass) as [Hrel2 Hann].
  split; [by eapply gridBoard_boardRel|]. split; [|split; [|split]].
  - rewrite (boardRel_length_cells _ _ _ Hrel2), (boardRel_length_cells _ _ _ Hrel1).
    rewrite length_cells_blank by done.
    destruct Hcols as [?%Z.ltb_ge|?%Z.ltb_ge]; [|lia].
    assert (rows = 0) as -> by lia. lia.
  - intros c Hc.
    destruct (boardRel_cells_r _ _ _ _ Hrel2 Hc) as (c1 & Hc1 & _ & -> & ->).
    destruct (boardRel_cells_r _ _ _ _ Hrel1 Hc1) as (c0 & Hc0 & Hm).
    apply cells_blank in Hc0 as ->. by destruct Hm as [->| ->].
  - intros p c Hc. eapply Hann; [|exact Hc]. left. apply Hidx.
    destruct (boardRel_cellAt_r _ _ _ _ _ Hrel2 Hc) as (c1 & -> & _). eauto.
  - rewrite <- (boardRel_countCells annotatedFrom CellProps.isMine _ _
                  ltac:(by intros ? ? (-> & _)) Hrel2).
    rewrite Hcount. rewrite countCells_none; [lia|].
    by intros c ->%cells_blank.
Qed.

(** [initializeBoard] returns as soon as the picks it is given are on the grid
    and hold [NUM_MINES] distinct cells. *)
Lemma initializeBoard_finishes (picks : list Pos.t) :
  0 ≤ rows → 0 ≤ cols →
  Forall (onGrid GRID_SIZE) picks →
  NUM_MINES ≤ Z.of_nat (length (remove_dups picks)) →
  ∃ board, initializeBoard GRID_SIZE NUM_MINES picks = Done board.
Proof.
  intros Hrows Hcols Hpicks Hdistinct. unfold initializeBoard.
  rewrite (proj2 (Z.ltb_ge _ _) Hrows), (proj2 (Z.ltb_ge _ _) Hcols), andb_false_r.
  simpl.
  destruct (setMines_loop_finishes NUM_MINES picks 0
              (replicate (Z.to_nat rows) (replicate (Z.to_nat cols) initializeCell))
              (remove_dups picks)) as [b1 Hb1].
  - apply NoDup_remove_dups.
  - intros p Hp. apply (proj1 (elem_of_remove_dups _ _)) in Hp. split; [exact Hp|].
    unfold isMineAt. rewrite cellAt_blank. by destruct (inGrid _ _ _).
  - lia.
  - intros p Hp. apply gridBoard_blank.
    by eapply (proj1 (Forall_forall _ _) Hpicks).
  - unfold setMines. rewrite Hb1. simpl.
    pose proof Hb1 as [Hrel1 _]%setMines_loop_spec.
    apply annotate_pass_Done.
    + eapply gridBoard_boardRel; [exact Hrel1|apply gridBoard_blank].
    + by intros p ?%elem_of_indices.
Qed.

(** Whatever the random numbers so far, further ones let [initializeBoard]
    return, provided the mines fit on the grid. *)
Lemma initializeBoard_can_finish (picks : list Pos.t) :
  0 ≤ rows → 0 ≤ cols → NUM_MINES ≤ rows * cols →
  Forall (onGrid GRID_SIZE) picks →
  ∃ more board,
    Forall (onGrid GRID_SIZE) more ∧
    initializeBoard GRID_SIZE NUM_MINES (picks ++ more) = Done board.
Proof.
  intros Hrows Hcols Hfit Hpicks. unfold initializeBoard.
  rewrite (proj2 (Z.ltb_ge _ _) Hrows), (proj2 (Z.ltb_ge _ _) Hcols), andb_false_r.
  simpl.
  destruct (setMines_loop_can_finish NUM_MINES picks 0
              (replicate (Z.to_nat rows) (replicate (Z.to_nat cols) initializeCell)))
    as (more & b1 & Hmore & Hb1).
  - rewrite countCells_none by (by intros c ->%cells_blank).
    rewrite length_cells_blank by done. lia.
  - intros p Hp. apply gridBoard_blank.
    by eapply (proj1 (Forall_forall _ _) Hpicks).
  - pose proof Hb1 as [Hrel1 _]%setMines_loop_spec.
    destruct (annotate_pass_Done (indices b1) b1) as [b' Hb'].
    + eapply gridBoard_boardRel; [exact Hrel1|apply gridBoard_blank].
    + by intros p ?%elem_of_indices.
    + exists more, b'. split.
      * apply Forall_forall. intros p Hp.
        apply (gridBoard_blank initializeCell p). by apply Hmore.
      * unfold setMines. rewrite Hb1. simpl. exact Hb'.
Qed.

End Generation.

(** * The flood fill *)

Lemma revealedFrom_refl (c : CellProps.t) : revealedFrom c c.
Proof. by left. Qed.

Lemma revealedFrom_trans (c1 c2 c3 : CellProps.t) :
  revealedFrom c1 c2 → revealedFrom c2 c3 → revealedFrom c1 c3.
Proof.
  intros [->|(Hm & Hf & Hr & ->)] [->|(Hm' & Hf' & Hr' & ->)].
  - by left.
  - right. auto.
  - right. auto.
  - discriminate.
Qed.

Lemma revealedFrom_fields (c c' : CellProps.t) :
  revealedFrom c c' →
  CellProps.isMine c' = CellProps.isMine c ∧
  CellProps.isFlagged c' = CellProps.isFlagged c ∧
  CellProps.adjacentMines c' = CellProps.adjacentMines c ∧
  CellProps.surroundingCells c' = CellProps.surroundingCells c ∧
  (CellProps.isRevealed c = true → CellProps.isRevealed c' = true) ∧
  (CellProps.isRevealed c' = false → c' = c).
Proof.
  intros [->|(Hm & Hf & Hr & ->)]; simpl; repeat split; auto. discriminate.
Qed.

Lemma revealedAt_mono (b b' : Board) (p : Pos.t) :
  boardRel revealedFrom b b' → revealedAt b p → revealedAt b' p.
Proof.
  intros Hrel (c & Hc & Hr).
  destruct (boardRel_cellAt_l _ _ _ _ _ Hrel Hc) as (c' & Hc' & Hcc).
  exists c'. split; [done|]. by apply revealedFrom_fields in Hcc as (_ & _ & _ & _ & H & _); auto.
Qed.

Lemma floodable_rel (b b' : Board) (p : Pos.t) :
  boardRel revealedFrom b b' → floodable b p → floodable b' p.
Proof.
  intros Hrel (c & Hc & Hm & Hf).
  destruct (boardRel_cellAt_l _ _ _ _ _ Hrel Hc) as (c' & Hc' & Hcc).
  apply revealedFrom_fields in Hcc as (Hm' & Hf' & _).
  exists c'. repeat split; congruence.
Qed.

Lemma hidden_unchanged (b b' : Board) (p : Pos.t) (c c' : CellProps.t) :
  boardRel revealedFrom b b' → cellAt b p = Some c → cellAt b' p = Some c' →
  ¬ revealedAt b' p → c' = c.
Proof.
  intros Hrel Hc Hc' Hnot.
  destruct (boardRel_cellAt_l _ _ _ _ _ Hrel Hc) as (c2 & Hc2 & Hcc).
  assert (c2 = c') as -> by congruence.
  apply revealedFrom_fields in Hcc as (_ & _ & _ & _ & _ & H). apply H.
  destruct (CellProps.isRevealed c') eqn:Hr; [|done].
  exfalso. apply Hnot. by exists c'.
Qed.

Lemma fillSpec_refl (s : GameBoard.t) : fillSpec [] s s.
Proof.
  split; try done.
  - apply boardRel_refl, revealedFrom_refl.
  - lia.
  - by intros p ?%elem_of_nil.
  - intros p c Hc Hr (c' & Hc' & Hr'). congruence.
Qed.

(** Running a fill after another one. *)
Lemma fillSpec_app (l1 l2 : list Pos.t) (s s1 s2 : GameBoard.t) :
  fillSpec l1 s s1 → fillSpec l2 s1 s2 → fillSpec (l1 ++ l2) s s2.
Proof.
  intros H1 H2. split.
  - rewrite (fill_flagCount _ _ _ H2). apply H1.
  - rewrite (fill_isGameStart _ _ _ H2). apply H1.
  - rewrite (fill_isGameOver _ _ _ H2). apply H1.
  - rewrite (fill_isGameWon _ _ _ H2). apply H1.
  - eapply boardRel_trans;
      [apply revealedFrom_trans|apply (fill_board _ _ _ H1)|apply (fill_board _ _ _ H2)].
  - rewrite (fill_revealedCount _ _ _ H2), (fill_revealedCount _ _ _ H1). lia.
  - intros p [Hp|Hp]%elem_of_app Hfl.
    + eapply revealedAt_mono; [apply (fill_board _ _ _ H2)|].
      by apply (fill_surrounding _ _ _ H1).
    + apply (fill_surrounding _ _ _ H2); [done|].
      eapply floodable_rel; [apply (fill_board _ _ _ H1)|done].
  - intros p c Hc Hr Hrev Hzero q Hq Hfl.
    destruct (boardRel_cellAt_l _ _ _ _ _ (fill_board _ _ _ H1) Hc) as (c1 & Hc1 & Hcc).
    destruct (CellProps.isRevealed c1) eqn:Hr1.
    + eapply revealedAt_mono; [apply (fill_board _ _ _ H2)|].
      eapply (fill_spread _ _ _ H1); eauto. by exists c1.
    + apply revealedFrom_fields in Hcc as (_ & _ & _ & _ & _ & Heq).
      specialize (Heq Hr1). subst c1.
      eapply (fill_spread _ _ _ H2); eauto.
      eapply floodable_rel; [apply (fill_board _ _ _ H1)|done].
Qed.

Lemma visitCell_spec (recurse : list Pos.t → GameBoard.t → Outcome GameBoard.t)
    (p : Pos.t) (s s1 : GameBoard.t) :
  (∀ l s s', recurse l s = Done s' → fillSpec l s s') →
  visitCell recurse p s = Done s1 → fillSpec [p] s s1.
Proof.
  intros Hrec. unfold visitCell.
  destruct (cellAt (GameBoard.board s) p) as [c|] eqn:Hc; [|discriminate].
  destruct (negb (CellProps.isFlagged c) && negb (CellProps.isMine c)
            && negb (CellProps.isRevealed c)) eqn:Helig.
  - apply andb_true_iff in Helig as [[Hf Hm]%andb_true_iff Hr].
    apply negb_true_iff in Hf, Hm, Hr.
    set (b1 := setCell (GameBoard.board s) p (CellProps.setRevealed true c)).
    assert (boardRel revealedFrom (GameBoard.board s) b1) as Hrel1.
    { eapply boardRel_setCell; [apply revealedFrom_refl|exact Hc|]. right. auto. }
    assert (countCells CellProps.isRevealed b1
            = countCells CellProps.isRevealed (GameBoard.board s) + 1) as Hcount1.
    { unfold b1. rewrite (countCells_setCell _ _ _ _ _ Hc), Hr. simpl. lia. }
    assert (revealedAt b1 p) as Hp1.
    { eexists. split; [eapply cellAt_setCell_eq, Hc|done]. }
    destruct (CellProps.adjacentMines c =? 0) eqn:Hzero.
    + intros Hfill%Hrec. destruct Hfill as [? ? ? ? Hb Hn Hsur Hspr]. simpl in *.
      split; simpl; try done.
      * eapply boardRel_trans; [apply revealedFrom_trans|exact Hrel1|exact Hb].
      * lia.
      * intros q ->%list_elem_of_singleton _. by eapply revealedAt_mono.
      * intros p0 c0 Hc0 Hr0 Hrev0 Hz0 q Hq Hfl.
        destruct (decide (p0 = p)) as [->|Hne].
        -- assert (c0 = c) as -> by congruence.
           apply Hsur; [done|]. by eapply floodable_rel.
        -- eapply (Hspr p0 c0); eauto.
           ++ unfold b1. by rewrite cellAt_setCell_ne.
           ++ by eapply floodable_rel.
    + intros [= <-]. split; simpl; try done.
      * lia.
      * by intros q ->%list_elem_of_singleton _.
      * intros p0 c0 Hc0 Hr0 (c0' & Hc0' & Hr0') Hz0 q Hq Hfl.
        destruct (decide (p0 = p)) as [->|Hne].
        -- assert (c0 = c) as -> by congruence.
           apply Z.eqb_neq in Hzero. done.
        -- unfold b1 in Hc0'. rewrite cellAt_setCell_ne in Hc0' by done. congruence.
  - intros [= <-]. split; try done.
    + apply boardRel_refl, revealedFrom_refl.
    + lia.
    + intros q ->%list_elem_of_singleton (c' & Hc' & Hm & Hf).
      assert (c' = c) as -> by congruence.
      rewrite Hm, Hf in Helig. simpl in Helig. apply negb_false_iff in Helig.
      by exists c.
    + intros p0 c0 Hc0 Hr0 (c0' & Hc0' & Hr0'). congruence.
Qed.

Lemma forEach_visit_spec (recurse : list Pos.t → GameBoard.t → Outcome GameBoard.t) :
  (∀ l s s', recurse l s = Done s' → fillSpec l s s') →
  ∀ l s s', forEachO (visitCell recurse) l s = Done s' → fillSpec l s s'.
Proof.
  intros Hrec. induction l as [|p l IH]; intros s s'; simpl.
  - intros [= <-]. apply fillSpec_refl.
  - intros (s1 & Hvisit & Hrest)%bindO_Done.
    change (p :: l) with ([p] ++ l). eapply fillSpec_app.
    + by eapply visitCell_spec.
    + by apply IH.
Qed.

Lemma recursiveSurroundCells_spec (depth : nat) :
  ∀ surrounding s s',
    recursiveSurroundCells depth surrounding s = Done s' →
    fillSpec surrounding s s'.
Proof.
  induction depth as [|depth IH]; intros l s s'; simpl; [discriminate|].
  by apply forEach_visit_spec.
Qed.

(** The result does not depend on the recursion budget, once it is enough. *)
Lemma recursiveSurroundCells_depth_mono (depth : nat) :
  ∀ depth' surrounding s s',
    recursiveSurroundCells depth surrounding s = Done s' →
    (depth ≤ depth')%nat →
    recursiveSurroundCells depth' surrounding s = Done s'.
Proof.
  induction depth as [|depth IH]; intros depth' l s s'; simpl; [discriminate|].
  intros Hrun Hle. destruct depth' as [|depth']; [lia|]. simpl.
  revert s Hrun. induction l as [|p l IHl]; intros s; simpl; [done|].
  intros (s1 & Hvisit & Hrest)%bindO_Done.
  assert (visitCell (recursiveSurroundCells depth') p s = Done s1) as ->.
  { revert Hvisit. unfold visitCell.
    destruct (cellAt (GameBoard.board s) p) as [c|]; [|done].
    destruct (_ && _); [|done].
    destruct (_ =? _); [|done].
    intros H. apply IH; [done|lia]. }
  simpl. by apply IHl.
Qed.

Lemma countCells_isHidden_rel (b b' : Board) :
  boardRel revealedFrom b b' → countCells isHidden b' ≤ countCells isHidden b.
Proof.
  intros H%boardRel_cells. unfold countCells.
  induction H as [|c c' l l' Hc _ IH]; [done|].
  rewrite !count_list_cons.
  apply revealedFrom_fields in Hc as (_ & _ & _ & _ & Hr & _).
  assert (Z.b2z (isHidden c') ≤ Z.b2z (isHidden c)); [|lia].
  unfold isHidden.
  destruct (CellProps.isRevealed c), (CellProps.isRevealed c'); simpl; lia.
Qed.

Lemma neighborsOnBoard_rel (b b' : Board) :
  boardRel revealedFrom b b' → neighborsOnBoard b → neighborsOnBoard b'.
Proof.
  intros Hrel Hnb p c' q Hc' Hq.
  destruct (boardRel_cellAt_r _ _ _ _ _ Hrel Hc') as (c & Hc & Hcc).
  apply revealedFrom_fields in Hcc as (_ & _ & _ & Hs & _).
  rewrite Hs in Hq. destruct (Hnb p c q Hc Hq) as [cq Hcq].
  destruct (boardRel_cellAt_l _ _ _ _ _ Hrel Hcq) as (cq' & -> & _). eauto.
Qed.

(** The flood fill returns, within a recursion depth of one more than the
    number of hidden cells. *)
Lemma recursiveSurroundCells_enough_depth (depth : nat) :
  ∀ surrounding s,
    neighborsOnBoard (GameBoard.board s) →
    (∀ p, p ∈ surrounding → is_Some (cellAt (GameBoard.board s) p)) →
    countCells isHidden (GameBoard.board s) < Z.of_nat depth →
    ∃ s', recursiveSurroundCells depth surrounding s = Done s'.
Proof.
  induction depth as [|depth IH]; intros l s Hnb Hon Hdepth.
  - pose proof (countCells_bounds isHidden (GameBoard.board s)). lia.
  - simpl. revert s Hnb Hon Hdepth.
    induction l as [|p l IHl]; intros s Hnb Hon Hdepth; simpl; [eauto|].
    destruct (Hon p) as [c Hc]; [by left|].
    assert (∃ s1, visitCell (recursiveSurroundCells depth) p s = Done s1)
      as [s1 Hs1].
    { unfold visitCell. rewrite Hc.
      destruct (_ && _) eqn:Helig; [|eauto].
      destruct (_ =? _); [|eauto].
      apply andb_true_iff in Helig as [[Hf Hm]%andb_true_iff Hr].
      apply negb_true_iff in Hf, Hm, Hr.
      apply IH; simpl.
      - eapply neighborsOnBoard_rel; [|exact Hnb].
        eapply boardRel_setCell; [apply revealedFrom_refl|exact Hc|].
        right. auto.
      - intros q Hq. rewrite (cellAt_setCell _ _ _ _ _ Hc).
        case_decide; [eauto|]. by eapply Hnb.
      - rewrite (countCells_setCell _ _ _ _ _ Hc). unfold isHidden at 2 3.
        rewrite Hr. simpl. lia. }
    rewrite Hs1. simpl.
    pose proof (visitCell_spec _ _ _ _ (recursiveSurroundCells_spec depth) Hs1) as Hfill.
    apply IHl.
    + eapply neighborsOnBoard_rel; [apply (fill_board _ _ _ Hfill)|done].
    + intros q Hq. destruct (Hon q) as [cq Hcq]; [by right|].
      destruct (boardRel_cellAt_l _ _ _ _ _ (fill_board _ _ _ Hfill) Hcq)
        as (cq' & -> & _). eauto.
    + pose proof (countCells_isHidden_rel _ _ (fill_board _ _ _ Hfill)). lia.
Qed.

(** With no flag set and no cell revealed yet, the fill gets to the whole
    region of the specification. *)
Lemma zeroRegion_floodPath (board : Board) (start q : Pos.t) :
  (∀ c, c ∈ cells board →
        CellProps.isRevealed c = false ∧ CellProps.isFlagged c = false) →
  zeroRegion board start q → floodPath board start q.
Proof.
  intros Hfresh. induction 1 as [|p q _ IH (cp & Hcp & Hmp & Hzp) Hnear (cq & Hcq & Hmq)].
  - apply flood_start.
  - destruct (Hfresh cp) as [Hrp Hfp]; [apply elem_of_cells; eauto|].
    destruct (Hfresh cq) as [_ Hfq]; [apply elem_of_cells; eauto|].
    eapply flood_step; [exact IH| |exact Hnear|].
    + exists cp. auto.
    + exists cq. auto.
Qed.

Lemma floodPath_zeroRegion (board : Board) (start q : Pos.t) :
  floodPath board start q → zeroRegion board start q.
Proof.
  induction 1 as [|p q _ IH (cp & Hcp & _ & _ & Hmp & Hzp) Hnear (cq & Hcq & Hmq & _)].
  - apply zero_start.
  - eapply zero_step; [exact IH| |exact Hnear|]; eauto.
Qed.

(** * The handlers and the states they reach *)

Lemma playedFrom_refl (c : CellProps.t) : playedFrom c c.
Proof. by repeat split. Qed.

Lemma playedFrom_trans (c1 c2 c3 : CellProps.t) :
  playedFrom c1 c2 → playedFrom c2 c3 → playedFrom c1 c3.
Proof. intros (? & ? & ?) (? & ? & ?). repeat split; congruence. Qed.

Lemma safeFrom_refl (c : CellProps.t) : safeFrom c c.
Proof. split; [apply playedFrom_refl|auto]. Qed.

Lemma safeFrom_trans (c1 c2 c3 : CellProps.t) :
  safeFrom c1 c2 → safeFrom c2 c3 → safeFrom c1 c3.
Proof.
  intros [Hp1 Hs1] [Hp2 Hs2]. split; [by eapply playedFrom_trans|].
  intros Hr3. destruct (Hs2 Hr3) as [Hr2|Hm2]; [auto|].
  right. destruct Hp1 as (Hm & _). congruence.
Qed.

Lemma revealedFrom_safeFrom (c c' : CellProps.t) : revealedFrom c c' → safeFrom c c'.
Proof.
  intros [->|(Hm & Hf & Hr & ->)]; [apply safeFrom_refl|].
  split; [by repeat split|]. auto.
Qed.

Lemma safeFrom_flag (v : bool) (c : CellProps.t) : safeFrom c (CellProps.setFlagged v c).
Proof. split; [by repeat split|]. simpl. auto. Qed.

Lemma safeFrom_flagHidden (c : CellProps.t) : safeFrom c (flagHidden c).
Proof.
  unfold flagHidden. destruct (unflaggedHidden c);
    [apply safeFrom_flag|apply safeFrom_refl].
Qed.

Lemma safe_cells (b b' : Board) :
  boardRel safeFrom b b' →
  (∀ c, c ∈ cells b → CellProps.isRevealed c = true → CellProps.isMine c = false) →
  ∀ c', c' ∈ cells b' → CellProps.isRevealed c' = true → CellProps.isMine c' = false.
Proof.
  intros Hrel Hsafe c' Hc' Hr'.
  destruct (boardRel_cells_r _ _ _ _ Hrel Hc') as (c & Hc & [(Hm & _) Hs]).
  rewrite Hm. destruct (Hs Hr'); auto.
Qed.

Lemma countCells_add (f g h : CellProps.t → bool) (board : Board) :
  (∀ c, Z.b2z (h c) = Z.b2z (f c) + Z.b2z (g c)) →
  countCells h board = countCells f board + countCells g board.
Proof.
  intros H. unfold countCells. induction (cells board) as [|c l IH]; [done|].
  rewrite !count_list_cons, H. lia.
Qed.


Section Handlers.
Context (GRID_SIZE : Pos.t) (NUM_MINES : Z).

Local Abbreviation rows := (Pos.row GRID_SIZE).
Local Abbreviation cols := (Pos.col GRID_SIZE).

Lemma annotated_rel (b b' : Board) :
  boardRel playedFrom b b' →
  (∀ p c, cellAt b p = Some c → annotatedAt GRID_SIZE b p c) →
  ∀ p c', cellAt b' p = Some c' → annotatedAt GRID_SIZE b' p c'.
Proof.
  intros Hrel Hann p c' Hc'.
  destruct (boardRel_cellAt_r _ _ _ _ _ Hrel Hc') as (c & Hc & Hm & Ha & Hs).
  destruct (Hann p c Hc) as [Hsc Hadj]. split; [congruence|].
  intros Hmine. rewrite Ha, Hadj by congruence.
  apply mineCount_ext. intros q. symmetry.
  eapply isMineAt_boardRel; [|exact Hrel]. by intros ? ? (? & _).
Qed.

(** The part of the invariant that rests on what no handler changes. *)
Lemma gameInv_intro (s s' : GameBoard.t) :
  gameInv GRID_SIZE NUM_MINES s →
  boardRel playedFrom (GameBoard.board s) (GameBoard.board s') →
  GameBoard.flagCount s' = countCells CellProps.isFlagged (GameBoard.board s') →
  (GameBoard.isGameOver s' = false →
   GameBoard.revealedCount s'
   = countCells CellProps.isRevealed (GameBoard.board s') ∧
   ∀ c, c ∈ cells (GameBoard.board s') →
        CellProps.isRevealed c = true → CellProps.isMine c = false) →
  (GameBoard.isGameOver s' = true →
   ∀ c, c ∈ cells (GameBoard.board s') → CellProps.isRevealed c = true) →
  gameInv GRID_SIZE NUM_MINES s'.
Proof.
  intros [Hg Hsz Hann Hm _ _ _] Hrel Hfc Hplay Hlost. split; try done.
  - by eapply gridBoard_boardRel.
  - by rewrite (boardRel_length_cells _ _ _ Hrel).
  - by eapply annotated_rel.
  - rewrite <- Hm. symmetry.
    eapply boardRel_countCells; [|exact Hrel]. by intros ? ? (? & _).
Qed.

Lemma gameInv_freshGame (picks : list Pos.t) (board : Board) :
  initializeBoard GRID_SIZE NUM_MINES picks = Done board →
  gameInv GRID_SIZE NUM_MINES (freshGame board).
Proof.
  intros (Hg & Hsz & Hnew & Hann & Hm)%initializeBoard_spec.
  split; simpl; try done.
  - symmetry. apply countCells_none. intros c Hc. by apply Hnew.
  - intros _. split.
    + symmetry. apply countCells_none. intros c Hc. by apply Hnew.
    + intros c Hc Hr. destruct (Hnew c Hc). congruence.
Qed.

(** Once every cell is revealed, no click changes anything. *)
Lemma revealedCell_all_revealed (s s' : GameBoard.t) (row col : Z) :
  (∀ c, c ∈ cells (GameBoard.board s) → CellProps.isRevealed c = true) →
  revealedCell GRID_SIZE NUM_MINES s row col = Done s' → s' = s.
Proof.
  intros Hall. unfold revealedCell.
  destruct (cellAt (GameBoard.board s) (Pos.mk row col)) as [c|] eqn:Hc;
    [|discriminate].
  rewrite (Hall c) by (apply elem_of_cells; eauto). simpl. congruence.
Qed.

Lemma flagToggleSet_all_revealed (s s' : GameBoard.t) (row col : Z) :
  (∀ c, c ∈ cells (GameBoard.board s) → CellProps.isRevealed c = true) →
  flagToggleSet GRID_SIZE NUM_MINES s row col = Done s' → s' = s.
Proof.
  intros Hall. unfold flagToggleSet.
  destruct (cellAt (GameBoard.board s) (Pos.mk row col)) as [c|] eqn:Hc;
    [|discriminate].
  rewrite (Hall c) by (apply elem_of_cells; eauto). simpl. congruence.
Qed.

(** A hidden cell on the board: the game is not lost. *)
Lemma hidden_cell_not_over (s : GameBoard.t) (p : Pos.t) (c : CellProps.t) :
  gameInv GRID_SIZE NUM_MINES s →
  cellAt (GameBoard.board s) p = Some c →
  CellProps.isRevealed c = false →
  GameBoard.isGameOver s = false.
Proof.
  intros Hinv Hc Hr. destruct (GameBoard.isGameOver s) eqn:Ho; [|done].
  rewrite (inv_lost _ _ _ Hinv Ho c) in Hr; [done|]. apply elem_of_cells; eauto.
Qed.

Lemma flagToggleSet_inv (s s' : GameBoard.t) (row col : Z) :
  gameInv GRID_SIZE NUM_MINES s →
  flagToggleSet GRID_SIZE NUM_MINES s row col = Done s' →
  gameInv GRID_SIZE NUM_MINES s'.
Proof.
  intros Hinv. unfold flagToggleSet.
  destruct (cellAt (GameBoard.board s) (Pos.mk row col)) as [c|] eqn:Hc;
    [|discriminate].
  destruct (CellProps.isRevealed c) eqn:Hr; simpl; [by intros [= <-]|].
  pose proof (hidden_cell_not_over _ _ _ Hinv Hc Hr) as Hover.
  destruct (inv_playing _ _ _ Hinv Hover) as [Hrc Hsafe].
  assert (∀ v, boardRel safeFrom (GameBoard.board s)
                 (setCell (GameBoard.board s) (Pos.mk row col)
                    (CellProps.setFlagged v c))) as Hrel.
  { intros v. eapply boardRel_setCell;
      [apply safeFrom_refl|exact Hc|apply safeFrom_flag]. }
  assert (∀ v, countCells CellProps.isRevealed
                 (setCell (GameBoard.board s) (Pos.mk row col)
                    (CellProps.setFlagged v c))
               = countCells CellProps.isRevealed (GameBoard.board s)) as Hrev.
  { intros v. rewrite (countCells_setCell _ _ _ _ _ Hc). simpl. lia. }
  destruct (CellProps.isFlagged c) eqn:Hf; intros [= <-];
    (eapply gameInv_intro; [exact Hinv|..]; simpl).
  - eapply boardRel_impl; [|apply Hrel]. by intros ? ? [? _].
  - rewrite (countCells_setCell _ _ _ _ _ Hc), Hf, (inv_flagCount _ _ _ Hinv).
    simpl. lia.
  - intros _. rewrite Hrev. split; [done|]. by eapply safe_cells.
  - congruence.
  - eapply boardRel_impl; [|apply Hrel]. by intros ? ? [? _].
  - rewrite (countCells_setCell _ _ _ _ _ Hc), Hf, (inv_flagCount _ _ _ Hinv).
    simpl. lia.
  - intros _. rewrite Hrev. split; [done|]. by eapply safe_cells.
  - congruence.
Qed.

Lemma countCells_isRevealed_flagHidden (board : Board) :
  countCells CellProps.isRevealed (mapCells flagHidden board)
  = countCells CellProps.isRevealed board.
Proof.
  rewrite countCells_mapCells. apply countCells_ext. intros c _.
  unfold flagHidden. by destruct (unflaggedHidden c).
Qed.

Lemma countCells_isFlagged_flagHidden (board : Board) :
  countCells CellProps.isFlagged (mapCells flagHidden board)
  = countCells CellProps.isFlagged board + countCells unflaggedHidden board.
Proof.
  rewrite countCells_mapCells. apply countCells_add. intros c.
  unfold flagHidden, unflaggedHidden.
  destruct (CellProps.isRevealed c), (CellProps.isFlagged c) eqn:Hf; simpl;
    rewrite ?Hf; done.
Qed.


Lemma revealedCell_inv (s s' : GameBoard.t) (row col : Z) :
  gameInv GRID_SIZE NUM_MINES s →
  revealedCell GRID_SIZE NUM_MINES s row col = Done s' →
  gameInv GRID_SIZE NUM_MINES s'.
Proof.
  intros Hinv. unfold revealedCell.
  destruct (cellAt (GameBoard.board s) (Pos.mk row col)) as [c|] eqn:Hc;
    [|discriminate].
  destruct (CellProps.isRevealed c || CellProps.isFlagged c) eqn:Hvis;
    [by intros [= <-]|].
  apply orb_false_iff in Hvis as [Hr Hf].
  pose proof (hidden_cell_not_over _ _ _ Hinv Hc Hr) as Hover.
  destruct (inv_playing _ _ _ Hinv Hover) as [Hrc Hsafe].
  pose proof (inv_flagCount _ _ _ Hinv) as Hflags.
  set (nb := setCell (GameBoard.board s) (Pos.mk row col)
               (CellProps.setRevealed true c)).
  assert (countCells CellProps.isRevealed nb
          = countCells CellProps.isRevealed (GameBoard.board s) + 1) as Hnb_rev.
  { unfold nb. rewrite (countCells_setCell _ _ _ _ _ Hc), Hr. simpl. lia. }
  assert (countCells CellProps.isFlagged nb
          = countCells CellProps.isFlagged (GameBoard.board s)) as Hnb_flag.
  { unfold nb. rewrite (countCells_setCell _ _ _ _ _ Hc). simpl. lia. }
  destruct (CellProps.isMine c) eqn:Hmine.
  - intros [= <-]. eapply gameInv_intro; [exact Hinv|..]; simpl.
    + eapply boardRel_trans; [apply playedFrom_trans| |apply boardRel_mapCells].
      * eapply boardRel_setCell; [apply playedFrom_refl|exact Hc|by repeat split].
      * intros c0. by repeat split.
    + rewrite Hflags, <- Hnb_flag. symmetry.
      exact (countCells_mapCells CellProps.isFlagged (CellProps.setRevealed true) nb).
    + discriminate.
    + intros _ c'. rewrite cells_mapCells.
      by intros (c0 & -> & _)%list_elem_of_fmap.
  - assert (boardRel revealedFrom (GameBoard.board s) nb) as Hstep.
    { eapply boardRel_setCell; [apply revealedFrom_refl|exact Hc|]. right. auto. }
    destruct (GameBoard.revealedCount s =? rows * cols - NUM_MINES - 1) eqn:Hwin.
    + intros [= <-].
      change (mapCells _ nb) with (mapCells flagHidden nb).
      assert (boardRel safeFrom (GameBoard.board s) (mapCells flagHidden nb)) as Hrel.
      { eapply boardRel_trans; [apply safeFrom_trans| |].
        - eapply boardRel_impl; [apply revealedFrom_safeFrom|exact Hstep].
        - apply boardRel_mapCells, safeFrom_flagHidden. }
      eapply gameInv_intro; [exact Hinv|..]; simpl.
      * eapply boardRel_impl; [|exact Hrel]. by intros ? ? [? _].
      * rewrite countCells_isFlagged_flagHidden. lia.
      * intros _. rewrite countCells_isRevealed_flagHidden. split; [lia|].
        by eapply safe_cells.
      * congruence.
    + assert (∀ s2,
        GameBoard.flagCount s2 = GameBoard.flagCount s →
        GameBoard.isGameOver s2 = GameBoard.isGameOver s →
        boardRel revealedFrom nb (GameBoard.board s2) →
        GameBoard.revealedCount s2
        = GameBoard.revealedCount s + 1
          + (countCells CellProps.isRevealed (GameBoard.board s2)
             - countCells CellProps.isRevealed nb) →
        gameInv GRID_SIZE NUM_MINES s2) as Hfrom.
      { intros s2 Hfc Hgo Hb Hn.
        assert (boardRel revealedFrom (GameBoard.board s) (GameBoard.board s2)) as Hrel.
        { eapply boardRel_trans; [apply revealedFrom_trans|exact Hstep|exact Hb]. }
        eapply gameInv_intro; [exact Hinv|..].
        - eapply boardRel_impl; [|exact Hrel].
          by intros ? ? [? _]%revealedFrom_safeFrom.
        - rewrite Hfc, Hflags.
          eapply boardRel_countCells; [|exact Hrel].
          by intros ? ? (_ & -> & _)%revealedFrom_fields.
        - intros _. split; [lia|]. eapply safe_cells; [|exact Hsafe].
          eapply boardRel_impl; [apply revealedFrom_safeFrom|exact Hrel].
        - congruence. }
      destruct (CellProps.adjacentMines c =? 0).
      * intros [Hfc _ Hgo _ Hb Hn _ _]%recursiveSurroundCells_spec.
        by apply Hfrom.
      * intros [= <-]. apply Hfrom; simpl; try done.
        -- apply boardRel_refl, revealedFrom_refl.
        -- lia.
Qed.

Lemma reachable_inv (s : GameBoard.t) :
  reachable GRID_SIZE NUM_MINES s → gameInv GRID_SIZE NUM_MINES s.
Proof.
  induction 1 as [picks b Hb|s row col s' _ IH Hstep|s row col s' _ IH Hstep
                 |s picks s' _ IH Hstep].
  - by eapply gameInv_freshGame.
  - by eapply revealedCell_inv.
  - by eapply flagToggleSet_inv.
  - apply bindO_Done in Hstep as (b & Hb & [= <-]). by eapply gameInv_freshGame.
Qed.

Lemma gameInv_neighborsOnBoard (s : GameBoard.t) :
  gameInv GRID_SIZE NUM_MINES s → neighborsOnBoard (GameBoard.board s).
Proof.
  intros Hinv p c q Hc Hq.
  destruct (inv_annotated _ _ _ Hinv p c Hc) as [Hsc _].
  rewrite Hsc in Hq. apply elem_of_surroundingCells in Hq as [Hq _].
  by apply (inv_grid _ _ _ Hinv).
Qed.





Lemma revealedAt_flagHidden (board : Board) (q : Pos.t) :
  revealedAt board q → revealedAt (mapCells flagHidden board) q.
Proof.
  intros (c & Hc & Hr). exists (flagHidden c). rewrite cellAt_mapCells, Hc.
  split; [done|]. unfold flagHidden. by destruct (unflaggedHidden c).
Qed.

(** In a game that is not lost, the hidden cells that are not mines number
    [rows * cols - max 0 NUM_MINES - revealedCount]. *)
Lemma hidden_safe_count (s : GameBoard.t) :
  gameInv GRID_SIZE NUM_MINES s →
  GameBoard.isGameOver s = false →
  countCells (λ c, negb (CellProps.isMine c) && negb (CellProps.isRevealed c))
    (GameBoard.board s)
  = rows * cols - Z.max 0 NUM_MINES - GameBoard.revealedCount s.
Proof.
  intros Hinv Hover. destruct (inv_playing _ _ _ Hinv Hover) as [Hrc Hsafe].
  assert (countCells (λ _, true) (GameBoard.board s)
          = countCells CellProps.isMine (GameBoard.board s)
            + countCells (λ c, negb (CellProps.isMine c)) (GameBoard.board s)) as H1.
  { apply countCells_add. intros c. by destruct (CellProps.isMine c). }
  pose proof (countCells_split (λ c, negb (CellProps.isMine c)) CellProps.isRevealed
                (GameBoard.board s)) as H2.
  rewrite (countCells_all (λ _, true)) in H1 by done.
  rewrite (inv_size _ _ _ Hinv), (inv_mines _ _ _ Hinv) in H1.
  rewrite (countCells_ext (λ c, negb (CellProps.isMine c) && CellProps.isRevealed c)
             CellProps.isRevealed) in H2.
  - lia.
  - intros c Hc. destruct (CellProps.isRevealed c) eqn:Hr.
    + by rewrite (Hsafe c Hc Hr).
    + by rewrite andb_false_r.
Qed.


(** Short of the win test of the direct path, a click leaves [isGameWon] as
    it is, however many cells the flood fill opens. *)
Lemma revealedCell_keeps_isGameWon (s s' : GameBoard.t) (row col : Z) (c : CellProps.t) :
  cellAt (GameBoard.board s) (Pos.mk row col) = Some c →
  CellProps.isMine c = false →
  GameBoard.revealedCount s ≠ rows * cols - NUM_MINES - 1 →
  revealedCell GRID_SIZE NUM_MINES s row col = Done s' →
  GameBoard.isGameWon s' = GameBoard.isGameWon s.
Proof.
  intros Hc Hmine Hcount. unfold revealedCell. rewrite Hc, Hmine.
  destruct (_ || _); [by intros [= <-]|].
  rewrite (proj2 (Z.eqb_neq _ _) Hcount).
  destruct (_ =? 0); [|by intros [= <-]].
  intros Hfill%recursiveSurroundCells_spec.
  apply (fill_isGameWon _ _ _ Hfill).
Qed.

End Handlers.

(** * The generated board *)

Lemma NoDup_offsets : NoDup offsets.
Proof. apply (bool_decide_unpack _). by vm_compute. Qed.

Section Generated.
Context (GRID_SIZE : Pos.t) (NUM_MINES : Z).

Local Abbreviation rows := (Pos.row GRID_SIZE).
Local Abbreviation cols := (Pos.col GRID_SIZE).

Lemma surroundingCells_filter (row col : Z) :
  surroundingCells GRID_SIZE row col
  = filter (onGrid GRID_SIZE) ((λ '(i, j), Pos.mk (row + i) (col + j)) <$> offsets).
Proof.
  unfold surroundingCells. induction offsets as [|[i j] offs IH]; [done|].
  rewrite bind_cons, fmap_cons, IH.
  destruct (inGrid GRID_SIZE (row + i) (col + j)) eqn:Hin.
  - by rewrite filter_cons_True.
  - rewrite filter_cons_False; [done|]. unfold onGrid. simpl. congruence.
Qed.

Lemma elem_of_neighbors (row col : Z) (q : Pos.t) :
  q ∈ neighbors GRID_SIZE row col ↔
  onGrid GRID_SIZE q ∧ near (Pos.mk row col) q ∧ q ≠ Pos.mk row col.
Proof.
  unfold neighbors, near. rewrite list_elem_of_filter, !elem_of_cons, elem_of_nil.
  simpl. split.
  - intros [Hon H]. split; [done|].
    repeat (destruct H as [->|H]; [simpl; split; [lia|]; intros [=]; lia|]). done.
  - intros (Hon & Hnear & Hne). split; [done|]. destruct q as [r c]. simpl in *.
    assert (r = row - 1 ∨ r = row ∨ r = row + 1) as [-> | [-> | ->]] by lia;
    assert (c = col - 1 ∨ c = col ∨ c = col + 1) as [-> | [-> | ->]] by lia;
    tauto.
Qed.

(** Counting mines over what [surroundingCells] lists, or over the up-to-8
    neighbors, is the same for a cell that is not a mine. *)
Lemma mineCount_skip_self (board : Board) (row col : Z) (before after : list (Z * Z)) :
  isMineAt board (Pos.mk row col) = false →
  mineCount board
    (filter (onGrid GRID_SIZE)
       ((λ '(i, j), Pos.mk (row + i) (col + j)) <$> (before ++ (0, 0) :: after)))
  = mineCount board
      (filter (onGrid GRID_SIZE)
         ((λ '(i, j), Pos.mk (row + i) (col + j)) <$> (before ++ after))).
Proof.
  intros Hself. rewrite !fmap_app, !filter_app, !mineCount_app. f_equal.
  rewrite fmap_cons, filter_cons. cbv beta iota. rewrite !Z.add_0_r.
  case_decide; [|done].
  rewrite mineCount_cons, Hself. simpl. lia.
Qed.

Lemma mineCount_surroundingCells (board : Board) (row col : Z) :
  isMineAt board (Pos.mk row col) = false →
  mineCount board (surroundingCells GRID_SIZE row col)
  = mineCount board (neighbors GRID_SIZE row col).
Proof.
  intros Hself. rewrite surroundingCells_filter.
  change offsets with
    ([(-1, -1); (-1, 0); (-1, 1); (0, -1)] ++ (0, 0) :: [(0, 1); (1, -1); (1, 0); (1, 1)]).
  rewrite mineCount_skip_self by done.
  unfold neighbors. simpl. by rewrite !Z.add_0_r.
Qed.

(** C1.  On the board [initializeBoard] returns, the [adjacentMines] field
    of every cell that is not a mine is the number of mines among its
    neighbors, the up-to-8 surrounding positions on the grid; it is also the
    number of mines among the coordinates stored in the cell. *)
Theorem adjacentMines_counts_mine_neighbors
    (picks : list Pos.t) (board : Board) (p : Pos.t) (c : CellProps.t) :
  initializeBoard GRID_SIZE NUM_MINES picks = Done board →
  cellAt board p = Some c →
  CellProps.isMine c = false →
  CellProps.adjacentMines c
  = mineCount board (neighbors GRID_SIZE (Pos.row p) (Pos.col p)) ∧
  CellProps.adjacentMines c = mineCount board (CellProps.surroundingCells c).
Proof.
  intros (_ & _ & _ & Hann & _)%initializeBoard_spec Hc Hmine.
  destruct (Hann p c Hc) as [Hsc Hadj]. rewrite Hsc, Hadj by done.
  split; [|done]. apply mineCount_surroundingCells.
  unfold isMineAt. destruct p. simpl. by rewrite Hc.
Qed.

(** C7, as the code has it.  On the board [initializeBoard] returns, the
    list stored in a cell holds coordinates of the grid only, has at most 9
    entries and no duplicate, and holds the cell's own coordinate together
    with its up-to-8 neighbors. *)
Theorem stored_surroundingCells
    (picks : list Pos.t) (board : Board) (p : Pos.t) (c : CellProps.t) :
  initializeBoard GRID_SIZE NUM_MINES picks = Done board →
  cellAt board p = Some c →
  Forall (onGrid GRID_SIZE) (CellProps.surroundingCells c) ∧
  (length (CellProps.surroundingCells c) ≤ 9)%nat ∧
  NoDup (CellProps.surroundingCells c) ∧
  ∀ q, q ∈ CellProps.surroundingCells c ↔
       q = p ∨ q ∈ neighbors GRID_SIZE (Pos.row p) (Pos.col p).
Proof.
  intros (Hg & _ & _ & Hann & _)%initializeBoard_spec Hc.
  destruct (Hann p c Hc) as [-> _]. repeat split.
  - apply Forall_forall. by intros q [? _]%elem_of_surroundingCells.
  - rewrite surroundingCells_filter.
    etrans; [apply length_filter|]. by rewrite length_fmap.
  - rewrite surroundingCells_filter. apply NoDup_filter, NoDup_fmap_2.
    + intros [i j] [i' j'] [= ? ?]. f_equal; lia.
    + apply NoDup_offsets.
  - intros [Hon Hnear]%elem_of_surroundingCells.
    destruct (decide (q = p)) as [|Hne]; [by left|]. right.
    apply elem_of_neighbors. by destruct p.
  - intros [->|Hq]; apply elem_of_surroundingCells.
    + split; [apply Hg; eauto|]. unfold near. simpl. lia.
    + apply elem_of_neighbors in Hq as (? & ? & _). done.
Qed.

(** C6.  For a grid of [rows] by [cols] cells and [0 <= NUM_MINES <
    rows * cols]: every board [initializeBoard] returns has exactly
    [NUM_MINES] mines among its [rows * cols] cells, none of them revealed or
    flagged; [initializeBoard] returns as soon as the random picks hold
    [NUM_MINES] distinct cells; and whatever has been drawn so far, some
    further picks make it return. *)
Theorem initializeBoard_places_mines :
  0 ≤ rows → 0 ≤ cols → 0 ≤ NUM_MINES < rows * cols →
  (∀ picks board,
     initializeBoard GRID_SIZE NUM_MINES picks = Done board →
     countCells CellProps.isMine board = NUM_MINES ∧
     Z.of_nat (length (cells board)) = rows * cols ∧
     ∀ c, c ∈ cells board →
          CellProps.isRevealed c = false ∧ CellProps.isFlagged c = false) ∧
  (∀ picks,
     Forall (onGrid GRID_SIZE) picks →
     NUM_MINES ≤ Z.of_nat (length (remove_dups picks)) →
     ∃ board, initializeBoard GRID_SIZE NUM_MINES picks = Done board) ∧
  (∀ picks,
     Forall (onGrid GRID_SIZE) picks →
     ∃ more board,
       Forall (onGrid GRID_SIZE) more ∧
       initializeBoard GRID_SIZE NUM_MINES (picks ++ more) = Done board).
Proof.
  intros Hrows Hcols Hmines. split; [|split].
  - intros picks board (_ & Hsz & Hnew & _ & Hm)%initializeBoard_spec.
    split; [lia|]. split; [done|]. intros c Hc. by apply Hnew.
  - intros picks. by apply initializeBoard_finishes.
  - intros picks. apply initializeBoard_can_finish; auto with lia.
Qed.



End Generated.

(** * Games on the grid of [constants] *)

Lemma mount_reachable (picks : list Pos.t) (s : GameBoard.t) :
  mount picks = Done s →
  reachable constants.GRID_SIZE constants.NUM_MINES s.
Proof.
  intros (b & Hb & [= <-])%bindO_Done. by eapply reach_mount.
Qed.

Lemma thenReveal_reachable (row col : Z) (o : Outcome GameBoard.t) (s : GameBoard.t) :
  (∀ s0, o = Done s0 → reachable constants.GRID_SIZE constants.NUM_MINES s0) →
  thenReveal row col o = Done s →
  reachable constants.GRID_SIZE constants.NUM_MINES s.
Proof.
  intros Ho (s0 & Hs0 & Hstep)%bindO_Done. eapply reach_reveal; eauto.
Qed.

Lemma thenFlag_reachable (row col : Z) (o : Outcome GameBoard.t) (s : GameBoard.t) :
  (∀ s0, o = Done s0 → reachable constants.GRID_SIZE constants.NUM_MINES s0) →
  thenFlag row col o = Done s →
  reachable constants.GRID_SIZE constants.NUM_MINES s.
Proof.
  intros Ho (s0 & Hs0 & Hstep)%bindO_Done. eapply reach_flag; eauto.
Qed.

Lemma blockGame_reachable :
  reachable constants.GRID_SIZE constants.NUM_MINES blockGame.
Proof. apply (mount_reachable blockPicks). by vm_compute. Qed.

Lemma cornerGame_reachable :
  reachable constants.GRID_SIZE constants.NUM_MINES cornerGame.
Proof. apply (mount_reachable cornerPicks). by vm_compute. Qed.

Lemma flaggedGame_reachable :
  reachable constants.GRID_SIZE constants.NUM_MINES flaggedGame.
Proof.
  apply (thenFlag_reachable 3 7 (mount wallPicks)); [|by vm_compute].
  intros s0. apply mount_reachable.
Qed.


Lemma almostWonGame_reachable :
  reachable constants.GRID_SIZE constants.NUM_MINES almostWonGame.
Proof.
  apply (thenReveal_reachable 7 7 (mount cornerPicks)); [|by vm_compute].
  intros s0. apply mount_reachable.
Qed.

Lemma wonGame_reachable :
  reachable constants.GRID_SIZE constants.NUM_MINES wonGame.
Proof.
  apply (thenReveal_reachable 0 0 (thenReveal 7 7 (mount cornerPicks)));
    [|by vm_compute].
  intros s0. apply thenReveal_reachable. intros s1. apply mount_reachable.
Qed.

(** ** The theorems at work *)

Lemma adjacentMines_counts_mine_neighbors_witness :
  initializeBoard constants.GRID_SIZE constants.NUM_MINES blockPicks
  = Done (GameBoard.board blockGame) ∧
  cellAt (GameBoard.board blockGame) (Pos.mk 2 1)
  = Some (CellProps.mk false false false 3 (surroundingCells constants.GRID_SIZE 2 1)) ∧
  3 = mineCount (GameBoard.board blockGame) (neighbors constants.GRID_SIZE 2 1) ∧
  3 = mineCount (GameBoard.board blockGame) (surroundingCells constants.GRID_SIZE 2 1).
Proof.
  assert (initializeBoard constants.GRID_SIZE constants.NUM_MINES blockPicks
          = Done (GameBoard.board blockGame)) as Hinit by (vm_compute; reflexivity).
  assert (cellAt (GameBoard.board blockGame) (Pos.mk 2 1)
          = Some (CellProps.mk false false false 3
                    (surroundingCells constants.GRID_SIZE 2 1))) as Hcell
    by (vm_compute; reflexivity).
  split; [exact Hinit|]. split; [exact Hcell|].
  exact (adjacentMines_counts_mine_neighbors constants.GRID_SIZE constants.NUM_MINES
           blockPicks (GameBoard.board blockGame) (Pos.mk 2 1) _ Hinit Hcell eq_refl).
Defined.




Lemma initializeBoard_places_mines_witness :
  (0 ≤ 8 ∧ 0 ≤ 8 ∧ 0 ≤ 10 < 8 * 8) ∧
  (∀ picks board,
     initializeBoard constants.GRID_SIZE constants.NUM_MINES picks = Done board →
     countCells CellProps.isMine board = 10 ∧
     Z.of_nat (length (cells board)) = 8 * 8 ∧
     ∀ c, c ∈ cells board →
          CellProps.isRevealed c = false ∧ CellProps.isFlagged c = false) ∧
  (∀ picks,
     Forall (onGrid constants.GRID_SIZE) picks →
     10 ≤ Z.of_nat (length (remove_dups picks)) →
     ∃ board, initializeBoard constants.GRID_SIZE constants.NUM_MINES picks = Done board) ∧
  (∀ picks,
     Forall (onGrid constants.GRID_SIZE) picks →
     ∃ more board,
       Forall (onGrid constants.GRID_SIZE) more ∧
       initializeBoard constants.GRID_SIZE constants.NUM_MINES (picks ++ more)
       = Done board).
Proof.
  split; [lia|].
  apply (initializeBoard_places_mines constants.GRID_SIZE constants.NUM_MINES);
    cbv [constants.NUM_MINES constants.GRID_SIZE Pos.row Pos.col]; lia.
Defined.

Lemma stored_surroundingCells_witness :
  initializeBoard constants.GRID_SIZE constants.NUM_MINES blockPicks
  = Done (GameBoard.board blockGame) ∧
  cellAt (GameBoard.board blockGame) (Pos.mk 0 7)
  = Some (CellProps.mk false false false 0
            [Pos.mk 0 6; Pos.mk 0 7; Pos.mk 1 6; Pos.mk 1 7]) ∧
  Forall (onGrid constants.GRID_SIZE)
    [Pos.mk 0 6; Pos.mk 0 7; Pos.mk 1 6; Pos.mk 1 7] ∧
  (length [Pos.mk 0 6; Pos.mk 0 7; Pos.mk 1 6; Pos.mk 1 7] ≤ 9)%nat ∧
  NoDup [Pos.mk 0 6; Pos.mk 0 7; Pos.mk 1 6; Pos.mk 1 7] ∧
  ∀ q, q ∈ [Pos.mk 0 6; Pos.mk 0 7; Pos.mk 1 6; Pos.mk 1 7] ↔
       q = Pos.mk 0 7 ∨ q ∈ neighbors constants.GRID_SIZE 0 7.
Proof.
  assert (initializeBoard constants.GRID_SIZE constants.NUM_MINES blockPicks
          = Done (GameBoard.board blockGame)) as Hinit by (vm_compute; reflexivity).
  assert (cellAt (GameBoard.board blockGame) (Pos.mk 0 7)
          = Some (CellProps.mk false false false 0
                    [Pos.mk 0 6; Pos.mk 0 7; Pos.mk 1 6; Pos.mk 1 7])) as Hcell
    by (vm_compute; reflexivity).
  split; [exact Hinit|]. split; [exact Hcell|].
  exact (stored_surroundingCells constants.GRID_SIZE constants.NUM_MINES
           blockPicks (GameBoard.board blockGame) (Pos.mk 0 7) _ Hinit Hcell).
Defined.




(** ** Where the code departs from the specification *)


(** C3.  The flood fill has no win check.  In [blockGame] a click on
    [(7, 7)] opens all 54 cells that are not mines, [revealedCount] reaches
    [8 * 8 - 10], and [isGameWon] stays false with no cell flagged. *)
Theorem flood_fill_finishes_without_win :
  reachable constants.GRID_SIZE constants.NUM_MINES blockGame ∧
  revealedCell constants.GRID_SIZE constants.NUM_MINES blockGame 7 7
  = Done clearedGame ∧
  GameBoard.revealedCount blockGame = 0 ∧
  GameBoard.revealedCount clearedGame = 8 * 8 - 10 ∧
  countCells (λ c, negb (CellProps.isMine c) && negb (CellProps.isRevealed c))
    (GameBoard.board clearedGame) = 0 ∧
  GameBoard.isGameWon clearedGame = false ∧
  GameBoard.flagCount clearedGame = 0.
Proof.
  split; [exact blockGame_reachable|].
  repeat (split; [vm_compute; reflexivity|]).
  vm_compute; reflexivity.
Qed.

(** C7 as the specification words it fails: the list stored in cell
    [(3, 3)] has 9 entries, and [(3, 3)] is one of them. *)
Lemma surroundingCells_holds_own_cell :
  initializeBoard constants.GRID_SIZE constants.NUM_MINES blockPicks
  = Done (GameBoard.board blockGame) ∧
  CellProps.surroundingCells <$> cellAt (GameBoard.board blockGame) (Pos.mk 3 3)
  = Some [ Pos.mk 2 2; Pos.mk 2 3; Pos.mk 2 4;
           Pos.mk 3 2; Pos.mk 3 3; Pos.mk 3 4;
           Pos.mk 4 2; Pos.mk 4 3; Pos.mk 4 4 ] ∧
  length (surroundingCells constants.GRID_SIZE 3 3) = 9%nat ∧
  Pos.mk 3 3 ∈ surroundingCells constants.GRID_SIZE 3 3.
Proof.
  split; [vm_compute; reflexivity|]. split; [vm_compute; reflexivity|].
  split; [vm_compute; reflexivity|].
  apply elem_of_surroundingCells. split; [vm_compute; reflexivity|].
  unfold near. simpl. lia.
Qed.



(** * More about the handlers *)

Lemma setRevealed_revealed (c : CellProps.t) :
  CellProps.isRevealed c = true → CellProps.setRevealed true c = c.
Proof. destruct c. simpl. by intros ->. Qed.

Lemma setFlagged_same (c : CellProps.t) :
  CellProps.setFlagged (CellProps.isFlagged c) c = c.
Proof. by destruct c. Qed.

Lemma setFlagged_twice (v w : bool) (c : CellProps.t) :
  CellProps.setFlagged v (CellProps.setFlagged w c) = CellProps.setFlagged v c.
Proof. done. Qed.

Lemma setCell_same (board : Board) (p : Pos.t) (c : CellProps.t) :
  cellAt board p = Some c → setCell board p c = board.
Proof.
  intros (r & Hr & Hc)%cellAt_Some. unfold setCell. rewrite Hr.
  apply index_Some in Hr as [Hi Hr]. apply index_Some in Hc as [Hj Hc].
  unfold assign. rewrite !(proj2 (Z.leb_le 0 _)) by done.
  by rewrite (list_insert_id r _ _ Hc), (list_insert_id board _ _ Hr).
Qed.

Lemma setCell_setCell (board : Board) (p : Pos.t) (c x y : CellProps.t) :
  cellAt board p = Some c →
  setCell (setCell board p x) p y = setCell board p y.
Proof.
  intros (r & Hr & Hc)%cellAt_Some.
  pose proof (index_assign_eq board (Pos.row p) (assign r (Pos.col p) x) r Hr) as Hr'.
  unfold setCell. rewrite Hr, Hr'.
  apply index_Some in Hr as [Hi Hr]. apply index_Some in Hc as [Hj Hc].
  unfold assign. rewrite !(proj2 (Z.leb_le 0 _)) by done.
  by rewrite !list_insert_insert_eq.
Qed.

Section Play.
Context (GRID_SIZE : Pos.t) (NUM_MINES : Z).

Local Abbreviation rows := (Pos.row GRID_SIZE).
Local Abbreviation cols := (Pos.col GRID_SIZE).

(** The four ways [revealedCell] returns. *)
Lemma revealedCell_cases (s s' : GameBoard.t) (row col : Z) :
  revealedCell GRID_SIZE NUM_MINES s row col = Done s' →
  ∃ c, cellAt (GameBoard.board s) (Pos.mk row col) = Some c ∧
    (((CellProps.isRevealed c = true ∨ CellProps.isFlagged c = true) ∧ s' = s) ∨
     (CellProps.isRevealed c = false ∧ CellProps.isFlagged c = false ∧
      ((CellProps.isMine c = true ∧
        s' = GameBoard.mk
               (mapCells (CellProps.setRevealed true)
                  (setCell (GameBoard.board s) (Pos.mk row col)
                     (CellProps.setRevealed true c)))
               (GameBoard.flagCount s) (GameBoard.revealedCount s + 1)
               true true (GameBoard.isGameWon s)) ∨
       (CellProps.isMine c = false ∧
        GameBoard.revealedCount s = rows * cols - NUM_MINES - 1 ∧
        s' = GameBoard.mk
               (mapCells flagHidden
                  (setCell (GameBoard.board s) (Pos.mk row col)
                     (CellProps.setRevealed true c)))
               (GameBoard.flagCount s
                + countCells unflaggedHidden
                    (setCell (GameBoard.board s) (Pos.mk row col)
                       (CellProps.setRevealed true c)))
               (GameBoard.revealedCount s + 1)
               true (GameBoard.isGameOver s) true) ∨
       (CellProps.isMine c = false ∧
        GameBoard.revealedCount s ≠ rows * cols - NUM_MINES - 1 ∧
        GameBoard.isGameStart s' = true ∧
        fillSpec (if CellProps.adjacentMines c =? 0
                  then CellProps.surroundingCells c else [])
          (GameBoard.mk
             (setCell (GameBoard.board s) (Pos.mk row col)
                (CellProps.setRevealed true c))
             (GameBoard.flagCount s) (GameBoard.revealedCount s + 1)
             true (GameBoard.isGameOver s) (GameBoard.isGameWon s)) s')))).
Proof.
  unfold revealedCell.
  destruct (cellAt (GameBoard.board s) (Pos.mk row col)) as [c|] eqn:Hc;
    [|discriminate].
  intros Hrun. exists c. split; [done|].
  destruct (CellProps.isRevealed c || CellProps.isFlagged c) eqn:Hvis.
  { left. split; [by apply orb_true_iff|congruence]. }
  apply orb_false_iff in Hvis as [Hr Hf].
  right. split; [done|]. split; [done|].
  destruct (CellProps.isMine c) eqn:Hmine.
  { left. split; [done|congruence]. }
  right. destruct (GameBoard.revealedCount s =? _) eqn:Hwin.
  { left. apply Z.eqb_eq in Hwin. split; [done|]. split; [done|].
    injection Hrun as <-. reflexivity. }
  right. apply Z.eqb_neq in Hwin. split; [done|]. split; [done|].
  destruct (CellProps.adjacentMines c =? 0).
  - pose proof (recursiveSurroundCells_spec _ _ _ _ Hrun) as Hfill.
    split; [|done]. by rewrite (fill_isGameStart _ _ _ Hfill).
  - injection Hrun as <-. split; [done|]. apply fillSpec_refl.
Qed.

(** The two ways [flagToggleSet] returns. *)
Lemma flagToggleSet_cases (s s' : GameBoard.t) (row col : Z) :
  flagToggleSet GRID_SIZE NUM_MINES s row col = Done s' →
  ∃ c, cellAt (GameBoard.board s) (Pos.mk row col) = Some c ∧
    ((CellProps.isRevealed c = true ∧ s' = s) ∨
     (CellProps.isRevealed c = false ∧
      s' = GameBoard.mk
             (setCell (GameBoard.board s) (Pos.mk row col)
                (CellProps.setFlagged (negb (CellProps.isFlagged c)) c))
             (GameBoard.flagCount s + (if CellProps.isFlagged c then -1 else 1))
             (GameBoard.revealedCount s) true (GameBoard.isGameOver s)
             (if GameBoard.revealedCount s =? rows * cols - NUM_MINES
              then true else GameBoard.isGameWon s))).
Proof.
  unfold flagToggleSet.
  destruct (cellAt (GameBoard.board s) (Pos.mk row col)) as [c|] eqn:Hc;
    [|discriminate].
  intros Hrun. exists c. split; [done|].
  destruct (CellProps.isRevealed c) eqn:Hr; simpl in Hrun.
  { left. split; [done|congruence]. }
  right. split; [done|].
  destruct (CellProps.isFlagged c); simpl in Hrun; injection Hrun as <-;
    reflexivity.
Qed.

(** X1.  Toggling the flag of a cell twice brings back the board and the
    counters: only [isGameStart], and [isGameWon] when all safe cells are
    counted as revealed, may have been set on the way. *)
Theorem flagToggleSet_twice (s s1 s2 : GameBoard.t) (row col : Z) :
  flagToggleSet GRID_SIZE NUM_MINES s row col = Done s1 →
  flagToggleSet GRID_SIZE NUM_MINES s1 row col = Done s2 →
  GameBoard.board s2 = GameBoard.board s ∧
  GameBoard.flagCount s2 = GameBoard.flagCount s ∧
  GameBoard.revealedCount s2 = GameBoard.revealedCount s ∧
  GameBoard.isGameOver s2 = GameBoard.isGameOver s.
Proof.
  intros (c & Hc & [[Hr ->]|[Hr ->]])%flagToggleSet_cases.
  - intros (c' & Hc' & [[_ ->]|[Hr' _]])%flagToggleSet_cases; [done|congruence].
  - intros (c' & Hc' & Hcase)%flagToggleSet_cases. simpl in *.
    rewrite (cellAt_setCell_eq _ _ _ _ Hc) in Hc'. injection Hc' as <-.
    destruct Hcase as [[Hr' _]|[_ ->]]; [simpl in Hr'; congruence|]. simpl.
    rewrite (setCell_setCell _ _ _ _ _ Hc), negb_involutive.
    rewrite setFlagged_twice, setFlagged_same, (setCell_same _ _ _ Hc).
    repeat split. destruct (CellProps.isFlagged c); simpl; lia.
Qed.

Lemma revealedCell_on_revealed (s : GameBoard.t) (row col : Z) :
  revealedAt (GameBoard.board s) (Pos.mk row col) →
  revealedCell GRID_SIZE NUM_MINES s row col = Done s.
Proof. intros (c & Hc & Hr). unfold revealedCell. by rewrite Hc, Hr. Qed.

(** Whichever way [revealedCell] returns, the cell it was called on is
    revealed or flagged afterwards. *)
Lemma revealedCell_target (s s' : GameBoard.t) (row col : Z) :
  revealedCell GRID_SIZE NUM_MINES s row col = Done s' →
  revealedAt (GameBoard.board s') (Pos.mk row col) ∨
  (s' = s ∧ ∃ c, cellAt (GameBoard.board s) (Pos.mk row col) = Some c ∧
                 CellProps.isFlagged c = true).
Proof.
  intros (c & Hc & Hcase)%revealedCell_cases.
  assert (revealedAt
            (setCell (GameBoard.board s) (Pos.mk row col)
               (CellProps.setRevealed true c)) (Pos.mk row col)) as Hnb.
  { eexists. split; [eapply cellAt_setCell_eq, Hc|done]. }
  destruct Hcase as [[[Hr|Hf] ->]|(Hr & Hf & [(_ & ->)|[(_ & _ & ->)|(_ & _ & _ & Hfill)]])].
  - left. by exists c.
  - right. eauto.
  - left. simpl. destruct Hnb as (c1 & Hc1 & _).
    exists (CellProps.setRevealed true c1). by rewrite cellAt_mapCells, Hc1.
  - left. simpl. by apply revealedAt_flagHidden.
  - left. eapply revealedAt_mono; [apply (fill_board _ _ _ Hfill)|done].
Qed.

(** X2.  Revealing is idempotent: a second [revealedCell] on the same cell
    returns the state the first one returned. *)
Theorem revealedCell_twice (s s1 : GameBoard.t) (row col : Z) :
  revealedCell GRID_SIZE NUM_MINES s row col = Done s1 →
  revealedCell GRID_SIZE NUM_MINES s1 row col = Done s1.
Proof.
  intros Hrun.
  destruct (revealedCell_target _ _ _ _ Hrun) as [Hrev|[-> _]]; [|done].
  by apply revealedCell_on_revealed.
Qed.

Lemma onGrid_dec_cases (s : GameBoard.t) (p : Pos.t) :
  gameInv GRID_SIZE NUM_MINES s →
  (onGrid GRID_SIZE p ∧ ∃ c, cellAt (GameBoard.board s) p = Some c) ∨
  (¬ onGrid GRID_SIZE p ∧ cellAt (GameBoard.board s) p = None).
Proof.
  intros Hinv. pose proof (inv_grid _ _ _ Hinv p) as Hg.
  destruct (cellAt (GameBoard.board s) p) as [c|] eqn:Hc.
  - left. split; [apply Hg|]; eauto.
  - right. split; [|done]. intros [c Hc']%Hg. congruence.
Qed.

(** X3.  In every state the component can be in, [revealedCell] and
    [flagToggleSet] return on every coordinate of the grid (the flood fill
    neither throws nor outruns its recursion budget) and throw on every
    other coordinate. *)
Theorem handlers_return (s : GameBoard.t) (row col : Z) :
  reachable GRID_SIZE NUM_MINES s →
  (onGrid GRID_SIZE (Pos.mk row col) →
   (∃ s', revealedCell GRID_SIZE NUM_MINES s row col = Done s') ∧
   (∃ s', flagToggleSet GRID_SIZE NUM_MINES s row col = Done s')) ∧
  (¬ onGrid GRID_SIZE (Pos.mk row col) →
   revealedCell GRID_SIZE NUM_MINES s row col = Throws ∧
   flagToggleSet GRID_SIZE NUM_MINES s row col = Throws).
Proof.
  intros Hinv%reachable_inv.
  destruct (onGrid_dec_cases s (Pos.mk row col) Hinv) as [[Hon [c Hc]]|[Hoff Hc]];
    (split; [|done || (intros _; unfold revealedCell, flagToggleSet; by rewrite Hc)]);
    [|done].
  intros _. split.
  - unfold revealedCell. rewrite Hc.
    destruct (_ || _) eqn:Hvis; [eauto|]. apply orb_false_iff in Hvis as [Hr Hf].
    destruct (CellProps.isMine c) eqn:Hmine; [eauto|].
    destruct (_ =? _); [eauto|].
    destruct (CellProps.adjacentMines c =? 0); [|eauto].
    assert (boardRel revealedFrom (GameBoard.board s)
              (setCell (GameBoard.board s) (Pos.mk row col)
                 (CellProps.setRevealed true c))) as Hstep.
    { eapply boardRel_setCell; [apply revealedFrom_refl|exact Hc|]. right. auto. }
    apply recursiveSurroundCells_enough_depth; simpl.
    + eapply neighborsOnBoard_rel; [exact Hstep|].
      by eapply gameInv_neighborsOnBoard.
    + intros q Hq.
      destruct (gameInv_neighborsOnBoard _ _ s Hinv _ c q Hc Hq) as [cq Hcq].
      destruct (boardRel_cellAt_l _ _ _ _ _ Hstep Hcq) as (cq' & -> & _). eauto.
    + pose proof (countCells_bounds isHidden
                    (setCell (GameBoard.board s) (Pos.mk row col)
                       (CellProps.setRevealed true c))).
      unfold floodDepth. lia.
  - unfold flagToggleSet. rewrite Hc.
    destruct (negb _); [|eauto]. destruct (CellProps.isFlagged c); eauto.
Qed.

Lemma boardRel_cells_l (R : CellProps.t → CellProps.t → Prop) (b b' : Board)
    (c : CellProps.t) :
  boardRel R b b' → c ∈ cells b → ∃ c', c' ∈ cells b' ∧ R c c'.
Proof.
  intros H Hc. apply elem_of_cells in Hc as [p Hp].
  destruct (boardRel_cellAt_l _ _ _ _ _ H Hp) as (c' & Hc' & HR).
  exists c'. split; [|done]. apply elem_of_cells. eauto.
Qed.

Lemma steppedFrom_refl (c : CellProps.t) : steppedFrom c c.
Proof. by left. Qed.

Lemma steppedFrom_flagHidden (c : CellProps.t) : steppedFrom c (flagHidden c).
Proof.
  unfold flagHidden, unflaggedHidden.
  destruct (CellProps.isRevealed c) eqn:Hr; simpl; [by left|].
  destruct (CellProps.isFlagged c); simpl; [by left|].
  right. split; [done|]. right. by exists true.
Qed.

Lemma revealedFrom_steppedFrom (c c' : CellProps.t) :
  revealedFrom c c' → steppedFrom c c'.
Proof. intros [->|(? & ? & ? & ->)]; [by left|]. right. auto. Qed.

(** How the board moves under a handler, seen through any relation [R] that
    holds the steps of [steppedFrom] and composes. *)
Section Steps.
Context (R : CellProps.t → CellProps.t → Prop).
Context (R_refl : ∀ c, R c c).
Context (R_trans : ∀ c1 c2 c3, R c1 c2 → R c2 c3 → R c1 c3).
Context (R_step : ∀ c c', steppedFrom c c' → R c c').

Lemma revealedCell_boardRel (s s' : GameBoard.t) (row col : Z) :
  revealedCell GRID_SIZE NUM_MINES s row col = Done s' →
  (GameBoard.isGameOver s' = true ∧
   (∀ c, c ∈ cells (GameBoard.board s') → CellProps.isRevealed c = true) ∧
   ∃ c, c ∈ cells (GameBoard.board s') ∧ CellProps.isMine c = true) ∨
  (GameBoard.isGameOver s' = GameBoard.isGameOver s ∧
   boardRel R (GameBoard.board s) (GameBoard.board s')).
Proof.
  intros (c & Hc & Hcase)%revealedCell_cases.
  destruct Hcase as [[_ ->]|(Hr & Hf & Hcase)].
  { right. split; [done|]. by apply boardRel_refl. }
  destruct Hcase as [(Hmine & ->)|Hcase].
  { left. simpl. split; [done|]. split.
    - intros c'. rewrite cells_mapCells.
      by intros (c0 & -> & _)%list_elem_of_fmap.
    - exists (CellProps.setRevealed true (CellProps.setRevealed true c)).
      split; [|done]. apply elem_of_cells. exists (Pos.mk row col).
      by rewrite cellAt_mapCells, (cellAt_setCell_eq _ _ _ _ Hc). }
  right.
  assert (CellProps.isMine c = false) as Hmine by (destruct Hcase as [[? _]|[? _]]; done).
  assert (boardRel R (GameBoard.board s)
            (setCell (GameBoard.board s) (Pos.mk row col)
               (CellProps.setRevealed true c))) as Hstep.
  { eapply boardRel_setCell; [done|exact Hc|]. apply R_step. right. auto. }
  destruct Hcase as [(_ & _ & ->)|(_ & _ & _ & Hfill)]; simpl.
  - split; [done|]. eapply boardRel_trans; [exact R_trans|exact Hstep|].
    apply boardRel_mapCells. intros c0. apply R_step, steppedFrom_flagHidden.
  - split; [apply (fill_isGameOver _ _ _ Hfill)|].
    eapply boardRel_trans; [exact R_trans|exact Hstep|].
    eapply boardRel_impl; [|apply (fill_board _ _ _ Hfill)].
    intros c0 c0' H0. by apply R_step, revealedFrom_steppedFrom.
Qed.

Lemma flagToggleSet_boardRel (s s' : GameBoard.t) (row col : Z) :
  flagToggleSet GRID_SIZE NUM_MINES s row col = Done s' →
  GameBoard.isGameOver s' = GameBoard.isGameOver s ∧
  boardRel R (GameBoard.board s) (GameBoard.board s').
Proof.
  intros (c & Hc & [[_ ->]|[Hr ->]])%flagToggleSet_cases; simpl.
  - split; [done|]. by apply boardRel_refl.
  - split; [done|]. eapply boardRel_setCell; [done|exact Hc|].
    apply R_step. right. split; [done|]. right. eauto.
Qed.
End Steps.

Lemma keptFrom_refl (c : CellProps.t) : keptFrom c c.
Proof. by split. Qed.

Lemma keptFrom_trans (c1 c2 c3 : CellProps.t) :
  keptFrom c1 c2 → keptFrom c2 c3 → keptFrom c1 c3.
Proof. intros [? ?] [? ?]. split; [congruence|auto]. Qed.

Lemma steppedFrom_keptFrom (c c' : CellProps.t) : steppedFrom c c' → keptFrom c c'.
Proof.
  intros [->|(Hr & [(_ & _ & ->)|[v ->]])]; split; simpl; auto; congruence.
Qed.

Lemma tidyFrom_refl (c : CellProps.t) : tidyFrom c c.
Proof. by intros ?. Qed.

Lemma tidyFrom_trans (c1 c2 c3 : CellProps.t) :
  tidyFrom c1 c2 → tidyFrom c2 c3 → tidyFrom c1 c3.
Proof. unfold tidyFrom. auto. Qed.

Lemma steppedFrom_tidyFrom (c c' : CellProps.t) : steppedFrom c c' → tidyFrom c c'.
Proof.
  intros [->|(Hr & [(Hf & _ & ->)|[v ->]])]; unfold tidyFrom; simpl; auto.
  congruence.
Qed.

(** With [revealedCount] at [rows * cols - NUM_MINES] in a game that is not
    lost, every cell that is not a mine is revealed. *)
Lemma all_safe_revealed (s : GameBoard.t) (c : CellProps.t) :
  gameInv GRID_SIZE NUM_MINES s →
  GameBoard.isGameOver s = false →
  rows * cols - NUM_MINES ≤ GameBoard.revealedCount s →
  c ∈ cells (GameBoard.board s) →
  CellProps.isMine c = false → CellProps.isRevealed c = true.
Proof.
  intros Hinv Hover Hcount Hc Hmine.
  pose proof (hidden_safe_count _ _ s Hinv Hover) as Hsafe.
  pose proof (countCells_bounds
                (λ c, negb (CellProps.isMine c) && negb (CellProps.isRevealed c))
                (GameBoard.board s)) as Hb.
  assert (countCells
            (λ c, negb (CellProps.isMine c) && negb (CellProps.isRevealed c))
            (GameBoard.board s) = 0) as Hnone by lia.
  apply (countCells_zero_inv _ _ _ Hnone) in Hc. rewrite Hmine in Hc.
  simpl in Hc. by apply negb_false_iff.
Qed.

Lemma revealedCell_playInv (s s' : GameBoard.t) (row col : Z) :
  gameInv GRID_SIZE NUM_MINES s → playInv s →
  revealedCell GRID_SIZE NUM_MINES s row col = Done s' → playInv s'.
Proof.
  intros Hinv Hplay Hrun.
  pose proof (revealedCell_inv _ _ _ _ _ _ Hinv Hrun) as Hinv'.
  pose proof (revealedCell_boardRel keptFrom keptFrom_refl keptFrom_trans
                steppedFrom_keptFrom _ _ _ _ Hrun) as Hkept.
  pose proof (revealedCell_boardRel tidyFrom tidyFrom_refl tidyFrom_trans
                steppedFrom_tidyFrom _ _ _ _ Hrun) as Htidy.
  pose proof Hrun as (c & Hc & Hcase)%revealedCell_cases.
  destruct Hcase as [[_ ->]|(Hr & Hf & Hcase)]; [done|].
  pose proof (hidden_cell_not_over _ _ _ _ _ Hinv Hc Hr) as Hover.
  split.
  - intros Hover' c' Hc' Hf'.
    destruct Htidy as [[Ho _]|[_ Hrel]]; [congruence|].
    destruct (boardRel_cells_r _ _ _ _ Hrel Hc') as (c0 & Hc0 & Ht).
    apply Ht; [|done]. by apply (play_flags_hidden _ Hplay).
  - intros Hwon' c' Hc' Hm'.
    destruct Hkept as [(_ & Hall & _)|[Ho' Hrel]]; [by apply Hall|].
    destruct (boardRel_cells_r _ _ _ _ Hrel Hc') as (c0 & Hc0 & Hm0 & Hk).
    destruct (GameBoard.isGameWon s) eqn:Hwon.
    + apply Hk, (play_won _ Hplay); [done|done|congruence].
    + apply (all_safe_revealed s' c' Hinv'); [congruence| |done|done].
      destruct Hcase as [(_ & ->)|[(_ & Hlast & ->)|(_ & _ & _ & Hfill)]];
        simpl in *; [done|lia|].
      rewrite (fill_isGameWon _ _ _ Hfill) in Hwon'. simpl in Hwon'. congruence.
  - intros Hover'.
    destruct Hkept as [(_ & Hall & cm & Hcm & Hmine)|[Ho' _]]; [|congruence].
    exists cm. auto.
  - intros Hstart'.
    destruct Hcase as [(_ & ->)|[(_ & _ & ->)|(_ & _ & Hst & _)]];
      simpl in *; congruence.
Qed.

Lemma flagToggleSet_playInv (s s' : GameBoard.t) (row col : Z) :
  gameInv GRID_SIZE NUM_MINES s → playInv s →
  flagToggleSet GRID_SIZE NUM_MINES s row col = Done s' → playInv s'.
Proof.
  intros Hinv Hplay Hrun.
  pose proof (flagToggleSet_inv _ _ _ _ _ _ Hinv Hrun) as Hinv'.
  pose proof (flagToggleSet_boardRel keptFrom keptFrom_refl
                steppedFrom_keptFrom _ _ _ _ Hrun) as [Ho Hkept].
  pose proof (flagToggleSet_boardRel tidyFrom tidyFrom_refl
                steppedFrom_tidyFrom _ _ _ _ Hrun) as [_ Htidy].
  pose proof Hrun as (c & Hc & Hcase)%flagToggleSet_cases.
  destruct Hcase as [[_ ->]|[Hr Hs']]; [done|].
  pose proof (hidden_cell_not_over _ _ _ _ _ Hinv Hc Hr) as Hover.
  split.
  - intros Hover' c' Hc' Hf'.
    destruct (boardRel_cells_r _ _ _ _ Htidy Hc') as (c0 & Hc0 & Ht).
    apply Ht; [|done]. by apply (play_flags_hidden _ Hplay).
  - intros Hwon' c' Hc' Hm'.
    destruct (boardRel_cells_r _ _ _ _ Hkept Hc') as (c0 & Hc0 & Hm0 & Hk).
    apply Hk. rewrite Hs' in Hwon'. simpl in Hwon'.
    destruct (GameBoard.revealedCount s =? rows * cols - NUM_MINES) eqn:Hcount.
    + apply Z.eqb_eq in Hcount.
      apply (all_safe_revealed s c0 Hinv); [done|lia|done|congruence].
    + apply (play_won _ Hplay); [done|done|congruence].
  - intros Hover'. congruence.
  - intros Hstart'. rewrite Hs' in Hstart'. done.
Qed.

Lemma playInv_freshGame (picks : list Pos.t) (board : Board) :
  initializeBoard GRID_SIZE NUM_MINES picks = Done board →
  playInv (freshGame board).
Proof.
  intros (_ & _ & Hnew & _)%initializeBoard_spec. split; simpl; try done.
  intros _ c Hc Hf. destruct (Hnew c Hc). congruence.
Qed.

Lemma reachable_playInv (s : GameBoard.t) :
  reachable GRID_SIZE NUM_MINES s → playInv s.
Proof.
  induction 1 as [picks b Hb|s row col s' Hs IH Hstep|s row col s' Hs IH Hstep
                 |s picks s' _ IH Hstep].
  - by eapply playInv_freshGame.
  - eapply revealedCell_playInv; eauto. by apply reachable_inv.
  - eapply flagToggleSet_playInv; eauto. by apply reachable_inv.
  - apply bindO_Done in Hstep as (b & Hb & [= <-]). by eapply playInv_freshGame.
Qed.



Lemma revealed_mine_lost (s : GameBoard.t) (c : CellProps.t) :
  gameInv GRID_SIZE NUM_MINES s →
  c ∈ cells (GameBoard.board s) →
  CellProps.isMine c = true → CellProps.isRevealed c = true →
  GameBoard.isGameOver s = true.
Proof.
  intros Hinv Hc Hm Hr.
  destruct (GameBoard.isGameOver s) eqn:Hover; [done|].
  destruct (inv_playing _ _ _ Hinv Hover) as [_ Hsafe].
  rewrite (Hsafe c Hc Hr) in Hm. done.
Qed.


(** X7.  As long as [isGameStart] is false the game is untouched: both
    counters are 0, the game is neither lost nor won, and no cell is revealed
    or flagged. *)
Theorem not_started_is_fresh (s : GameBoard.t) :
  reachable GRID_SIZE NUM_MINES s →
  GameBoard.isGameStart s = false →
  s = freshGame (GameBoard.board s) ∧
  ∀ c, c ∈ cells (GameBoard.board s) →
       CellProps.isRevealed c = false ∧ CellProps.isFlagged c = false.
Proof.
  intros Hplay%reachable_playInv Hstart.
  destruct (play_fresh _ Hplay Hstart) as (Hf & Hr & Ho & Hw & Hcells).
  split; [|done]. destruct s. simpl in *. unfold freshGame. congruence.
Qed.

(** X8.  While the game is not lost, a flagged cell is never a revealed
    one. *)
Theorem flags_sit_on_hidden_cells (s : GameBoard.t) (c : CellProps.t) :
  reachable GRID_SIZE NUM_MINES s →
  GameBoard.isGameOver s = false →
  c ∈ cells (GameBoard.board s) →
  CellProps.isFlagged c = true →
  CellProps.isRevealed c = false.
Proof.
  intros Hplay%reachable_playInv Hover Hc Hf. by apply (play_flags_hidden _ Hplay).
Qed.

Lemma mineCount_le_length (board : Board) (ps : list Pos.t) :
  0 ≤ mineCount board ps ≤ Z.of_nat (length ps).
Proof. unfold mineCount. split; [lia|]. apply inj_le, length_filter. Qed.

Lemma length_neighbors (row col : Z) :
  (length (neighbors GRID_SIZE row col) ≤ 8)%nat.
Proof. unfold neighbors. etrans; [apply length_filter|done]. Qed.

Lemma adjacentMines_of_cell (s : GameBoard.t) (p : Pos.t) (c : CellProps.t) :
  gameInv GRID_SIZE NUM_MINES s →
  cellAt (GameBoard.board s) p = Some c →
  CellProps.isMine c = false →
  CellProps.adjacentMines c
  = mineCount (GameBoard.board s) (neighbors GRID_SIZE (Pos.row p) (Pos.col p)) ∧
  0 ≤ CellProps.adjacentMines c ≤ 8.
Proof.
  intros Hinv Hc Hmine.
  destruct (inv_annotated _ _ _ Hinv p c Hc) as [Hsc Hadj].
  rewrite Hadj by done. rewrite mineCount_surroundingCells.
  - split; [done|].
    pose proof (mineCount_le_length (GameBoard.board s)
                  (neighbors GRID_SIZE (Pos.row p) (Pos.col p))).
    pose proof (length_neighbors (Pos.row p) (Pos.col p)). lia.
  - unfold isMineAt. destruct p. simpl. by rewrite Hc.
Qed.

(** X9.  No handler touches what [initializeBoard] computed: in every state
    the board has its [rows * cols] cells and [max 0 NUM_MINES] mines, each
    cell stores [surroundingCells] of its own coordinate, and the
    [adjacentMines] of a cell that is not a mine is the number of mines
    among its up-to-8 neighbors, between 0 and 8. *)
Theorem annotations_kept (s : GameBoard.t) (p : Pos.t) (c : CellProps.t) :
  reachable GRID_SIZE NUM_MINES s →
  cellAt (GameBoard.board s) p = Some c →
  Z.of_nat (length (cells (GameBoard.board s))) = rows * cols ∧
  countCells CellProps.isMine (GameBoard.board s) = Z.max 0 NUM_MINES ∧
  CellProps.surroundingCells c
  = surroundingCells GRID_SIZE (Pos.row p) (Pos.col p) ∧
  (CellProps.isMine c = false →
   CellProps.adjacentMines c
   = mineCount (GameBoard.board s) (neighbors GRID_SIZE (Pos.row p) (Pos.col p)) ∧
   0 ≤ CellProps.adjacentMines c ≤ 8).
Proof.
  intros Hinv%reachable_inv Hc.
  destruct (inv_annotated _ _ _ Hinv p c Hc) as [Hsc _].
  split; [apply (inv_size _ _ _ Hinv)|]. split; [apply (inv_mines _ _ _ Hinv)|].
  split; [done|]. by apply adjacentMines_of_cell.
Qed.

(** ** The flood fill reveals nothing but the flood paths *)

Lemma floodPath_trans (board : Board) (p r q : Pos.t) :
  floodPath board p r → floodPath board r q → floodPath board p q.
Proof.
  intros Hpr. induction 1 as [|x y _ IH Hx Hnear Hy]; [done|].
  by eapply flood_step.
Qed.

Lemma floodable_back (b b' : Board) (p : Pos.t) :
  boardRel revealedFrom b b' → floodable b' p → floodable b p.
Proof.
  intros Hrel (c' & Hc' & Hm & Hf).
  destruct (boardRel_cellAt_r _ _ _ _ _ Hrel Hc') as (c & Hc & Hcc).
  apply revealedFrom_fields in Hcc as (Hm' & Hf' & _).
  exists c. repeat split; congruence.
Qed.

Lemma spreads_back (b b' : Board) (p : Pos.t) :
  boardRel revealedFrom b b' → spreads b' p → spreads b p.
Proof.
  intros Hrel (c' & Hc' & Hr & Hf & Hm & Hz).
  destruct (boardRel_cellAt_r _ _ _ _ _ Hrel Hc') as (c & Hc & Hcc).
  apply revealedFrom_fields in Hcc as (_ & _ & _ & _ & _ & Heq).
  pose proof (Heq Hr) as ->. exists c. by repeat split.
Qed.

Lemma floodPath_back (b b' : Board) (p q : Pos.t) :
  boardRel revealedFrom b b' → floodPath b' p q → floodPath b p q.
Proof.
  intros Hrel. induction 1 as [|x y _ IH Hx Hnear Hy]; [apply flood_start|].
  eapply flood_step; [exact IH| |exact Hnear|].
  - by eapply spreads_back.
  - by eapply floodable_back.
Qed.

Lemma storedNear_rel (b b' : Board) :
  boardRel revealedFrom b b' → storedNear b → storedNear b'.
Proof.
  intros Hrel Hnear p c' q Hc' Hq.
  destruct (boardRel_cellAt_r _ _ _ _ _ Hrel Hc') as (c & Hc & Hcc).
  apply revealedFrom_fields in Hcc as (_ & _ & _ & Hs & _).
  rewrite Hs in Hq. by eapply Hnear.
Qed.

Lemma hidden_or_revealed (b b' : Board) (q : Pos.t) :
  boardRel revealedFrom b b' → hiddenAt b q → hiddenAt b' q ∨ revealedAt b' q.
Proof.
  intros Hrel (c & Hc & _).
  destruct (boardRel_cellAt_l _ _ _ _ _ Hrel Hc) as (c' & Hc' & _).
  destruct (CellProps.isRevealed c') eqn:Hr; [right|left]; by exists c'.
Qed.

Lemma visitCell_sound (recurse : list Pos.t → GameBoard.t → Outcome GameBoard.t)
    (p : Pos.t) (s s1 : GameBoard.t) :
  (∀ l s s', storedNear (GameBoard.board s) →
             recurse l s = Done s' → fillSound l s s') →
  storedNear (GameBoard.board s) →
  visitCell recurse p s = Done s1 → fillSound [p] s s1.
Proof.
  intros Hrec Hnear. unfold visitCell.
  destruct (cellAt (GameBoard.board s) p) as [c|] eqn:Hc; [|discriminate].
  destruct (negb (CellProps.isFlagged c) && negb (CellProps.isMine c)
            && negb (CellProps.isRevealed c)) eqn:Helig.
  - apply andb_true_iff in Helig as [[Hf Hm]%andb_true_iff Hr].
    apply negb_true_iff in Hf, Hm, Hr.
    set (b1 := setCell (GameBoard.board s) p (CellProps.setRevealed true c)).
    assert (boardRel revealedFrom (GameBoard.board s) b1) as Hrel1.
    { eapply boardRel_setCell; [apply revealedFrom_refl|exact Hc|]. right. auto. }
    assert (floodable (GameBoard.board s) p) as Hp by (by exists c).
    assert (∀ q, q ≠ p → hiddenAt (GameBoard.board s) q → hiddenAt b1 q) as Hother.
    { intros q Hne (cq & Hcq & Hrq). exists cq. split; [|done].
      unfold b1. by rewrite cellAt_setCell_ne. }
    destruct (CellProps.adjacentMines c =? 0) eqn:Hzero.
    + intros Hrun q Hq Hrev.
      exists p. split; [by left|]. split; [done|].
      destruct (decide (q = p)) as [->|Hne]; [apply flood_start|].
      pose proof (λ H, Hrec _ _ _ H Hrun) as Hsound. simpl in Hsound.
      destruct (Hsound (storedNear_rel _ _ Hrel1 Hnear) q)
        as (r & Hr_in & Hr_fl & Hpath); [by apply Hother|done|].
      simpl in Hr_fl, Hpath.
      eapply floodPath_trans; [|eapply floodPath_back; [exact Hrel1|exact Hpath]].
      eapply flood_step; [apply flood_start| | |].
      * exists c. apply Z.eqb_eq in Hzero. by repeat split.
      * by eapply Hnear.
      * by eapply floodable_back.
    + intros [= <-] q Hq (cq & Hcq & Hrq). simpl in Hcq.
      exists p. split; [by left|]. split; [done|].
      destruct (decide (q = p)) as [->|Hne]; [apply flood_start|].
      destruct (Hother q Hne Hq) as (cq' & Hcq' & Hrq'). congruence.
  - intros [= <-] q (cq & Hcq & Hrq) (cq' & Hcq' & Hrq'). congruence.
Qed.

Lemma forEach_visit_sound (recurse : list Pos.t → GameBoard.t → Outcome GameBoard.t) :
  (∀ l s s', recurse l s = Done s' → fillSpec l s s') →
  (∀ l s s', storedNear (GameBoard.board s) →
             recurse l s = Done s' → fillSound l s s') →
  ∀ l s s', storedNear (GameBoard.board s) →
            forEachO (visitCell recurse) l s = Done s' → fillSound l s s'.
Proof.
  intros Hspec Hrec. induction l as [|p l IH]; intros s s' Hnear; simpl.
  - intros [= <-] q (cq & Hcq & Hrq) (cq' & Hcq' & Hrq'). congruence.
  - intros (s1 & Hvisit & Hrest)%bindO_Done q Hq Hrev.
    pose proof (visitCell_spec _ _ _ _ Hspec Hvisit) as Hfill1.
    pose proof (fill_board _ _ _ Hfill1) as Hrel1.
    destruct (hidden_or_revealed _ _ q Hrel1 Hq) as [Hq1|Hq1].
    + destruct (IH _ _ (storedNear_rel _ _ Hrel1 Hnear) Hrest q Hq1 Hrev)
        as (r & Hr_in & Hr_fl & Hpath).
      exists r. split; [by right|]. split.
      * by eapply floodable_back.
      * by eapply floodPath_back.
    + destruct (visitCell_sound _ _ _ _ Hrec Hnear Hvisit q Hq Hq1)
        as (r & ->%list_elem_of_singleton & Hr_fl & Hpath).
      exists p. split; [by left|done].
Qed.

Lemma recursiveSurroundCells_sound (depth : nat) :
  ∀ surrounding s s',
    storedNear (GameBoard.board s) →
    recursiveSurroundCells depth surrounding s = Done s' →
    fillSound surrounding s s'.
Proof.
  induction depth as [|depth IH]; intros l s s' Hnear; simpl; [discriminate|].
  apply forEach_visit_sound; [apply recursiveSurroundCells_spec|exact IH|exact Hnear].
Qed.

Lemma gameInv_storedNear (s : GameBoard.t) :
  gameInv GRID_SIZE NUM_MINES s → storedNear (GameBoard.board s).
Proof.
  intros Hinv p c q Hc Hq.
  destruct (inv_annotated _ _ _ Hinv p c Hc) as [Hsc _].
  rewrite Hsc in Hq. apply elem_of_surroundingCells in Hq as [_ Hq]. by destruct p.
Qed.

(** X10.  A click reveals nothing outside the flood: after [revealedCell] on
    a hidden, unflagged cell that is not a mine, every revealed cell either
    was revealed before or ends a flood path from the clicked cell (for a
    cell with [adjacentMines] not 0, the clicked cell alone). *)
Theorem revealedCell_reveals_only_flood
    (s s' : GameBoard.t) (row col : Z) (c : CellProps.t) (q : Pos.t) :
  reachable GRID_SIZE NUM_MINES s →
  cellAt (GameBoard.board s) (Pos.mk row col) = Some c →
  CellProps.isRevealed c = false →
  CellProps.isFlagged c = false →
  CellProps.isMine c = false →
  revealedCell GRID_SIZE NUM_MINES s row col = Done s' →
  revealedAt (GameBoard.board s') q →
  (revealedAt (GameBoard.board s) q ∨
   floodPath (GameBoard.board s) (Pos.mk row col) q) ∧
  (CellProps.adjacentMines c ≠ 0 →
   revealedAt (GameBoard.board s) q ∨ q = Pos.mk row col).
Proof.
  intros Hinv%reachable_inv Hc Hr Hf Hmine Hrun Hq.
  pose proof (gameInv_storedNear s Hinv) as Hnear.
  set (start := Pos.mk row col) in *.
  set (nb := setCell (GameBoard.board s) start (CellProps.setRevealed true c)).
  assert (boardRel revealedFrom (GameBoard.board s) nb) as Hstep.
  { eapply boardRel_setCell; [apply revealedFrom_refl|exact Hc|]. right. auto. }
  assert (∀ q, revealedAt nb q → revealedAt (GameBoard.board s) q ∨ q = start)
    as Hnb.
  { intros q0 (c0 & Hc0 & Hr0). unfold nb in Hc0.
    rewrite (cellAt_setCell _ _ _ _ _ Hc) in Hc0.
    case_decide; [by right|]. left. by exists c0. }
  assert (revealedAt nb q →
          (revealedAt (GameBoard.board s) q ∨ floodPath (GameBoard.board s) start q) ∧
          (CellProps.adjacentMines c ≠ 0 →
           revealedAt (GameBoard.board s) q ∨ q = start)) as Hdone.
  { intros [H| ->]%Hnb; (split; [|intros _]); auto. right. apply flood_start. }
  revert Hrun. unfold revealedCell. fold start. rewrite Hc, Hr, Hf, Hmine.
  cbn [orb]. fold nb. destruct (_ =? _).
  - intros [= <-]. simpl in Hq. apply Hdone.
    destruct Hq as (c' & Hc' & Hr'). rewrite cellAt_mapCells in Hc'.
    destruct (cellAt nb q) as [c0|] eqn:Hc0; [|done].
    injection Hc' as <-. exists c0. split; [done|].
    revert Hr'. unfold flagHidden. by destruct (unflaggedHidden c0).
  - destruct (CellProps.adjacentMines c =? 0) eqn:Hzero.
    + intros Hfill. apply Z.eqb_eq in Hzero. split; [|done].
      destruct (decide (q = start)) as [->|Hne]; [right; apply flood_start|].
      pose proof (recursiveSurroundCells_spec _ _ _ _ Hfill) as Hspec.
      pose proof (fill_board _ _ _ Hspec) as Hb. simpl in Hb.
      destruct Hq as (c' & Hc' & Hr').
      destruct (boardRel_cellAt_r _ _ _ _ _ Hb Hc') as (c1 & Hc1 & _).
      destruct (CellProps.isRevealed c1) eqn:Hr1.
      { destruct (Hnb q) as [H|H]; [by exists c1|by left|done]. }
      pose proof (λ H, recursiveSurroundCells_sound _ _ _ _ H Hfill) as Hsound.
      simpl in Hsound.
      destruct (Hsound (storedNear_rel _ _ Hstep Hnear) q)
        as (r & Hr_in & Hr_fl & Hpath); [by exists c1|by exists c'|].
      simpl in Hr_fl, Hpath. right.
      eapply floodPath_trans; [|eapply floodPath_back; [exact Hstep|exact Hpath]].
      eapply flood_step; [apply flood_start| | |].
      * exists c. by repeat split.
      * by eapply Hnear.
      * by eapply floodable_back.
    + intros [= <-]. simpl in Hq. by apply Hdone.
Qed.

(** ** What the player sees *)

(** X11.  What the cells of a reachable game show: a number is shown only
    on a revealed cell that is not a mine, lies between 1 and 8 and is the
    number of mines among the cell's neighbors; a bomb is shown only once the
    game is lost. *)
Theorem cellContent_sound (s : GameBoard.t) (p : Pos.t) (c : CellProps.t) :
  reachable GRID_SIZE NUM_MINES s →
  cellAt (GameBoard.board s) p = Some c →
  (∀ n, cellContent c = Count n →
        CellProps.isRevealed c = true ∧ CellProps.isMine c = false ∧
        1 ≤ n ≤ 8 ∧
        n = mineCount (GameBoard.board s)
              (neighbors GRID_SIZE (Pos.row p) (Pos.col p))) ∧
  (cellContent c = Bomb → GameBoard.isGameOver s = true).
Proof.
  intros Hreach Hc. split.
  - intros n. unfold cellContent.
    destruct (CellProps.isRevealed c) eqn:Hr;
      [|by destruct (CellProps.isFlagged c)].
    destruct (CellProps.isMine c) eqn:Hm; [done|].
    destruct (CellProps.adjacentMines c =? 0) eqn:Hz; [done|].
    intros [= <-]. apply Z.eqb_neq in Hz.
    destruct (adjacentMines_of_cell s p c (reachable_inv _ _ _ Hreach) Hc Hm)
      as [Heq Hrange].
    repeat split; (done || lia).
  - intros Hbomb.
    cut (CellProps.isMine c = true ∧ CellProps.isRevealed c = true).
    { intros [Hm Hr].
      apply (revealed_mine_lost s c (reachable_inv _ _ _ Hreach)); [|done|done].
      apply elem_of_cells; eauto. }
    revert Hbomb. unfold cellContent.
    destruct (CellProps.isRevealed c); [|by destruct (CellProps.isFlagged c)].
    destruct (CellProps.isMine c); [done|]. by destruct (negb _).
Qed.




(** ** Taps *)

(** X14.  For the handlers of one render, whatever taps and timeouts come:
    at most one delayed reveal is pending, and one is pending exactly when
    [clickCount] is not 0; a tap runs [flagToggleSet] exactly when one is
    pending, and otherwise only schedules the reveal; the timeout runs
    [revealedCell], on the cell of the first tap, exactly when no other tap
    came in between, and brings [clickCount] back to 0. *)
Theorem tap_discipline (t : Taps) :
  tapsReachable GRID_SIZE NUM_MINES t →
  ((clickCount t = 0 ∧ pending t = []) ∨
   (1 ≤ clickCount t ∧ ∃ p, pending t = [p])) ∧
  (∀ s row col,
     handleClick GRID_SIZE NUM_MINES t s row col
     = match pending t with
       | [] => ({| clickCount := 1; pending := [Pos.mk row col] |}, Done s)
       | _ => ({| clickCount := clickCount t + 1; pending := pending t |},
               flagToggleSet GRID_SIZE NUM_MINES s row col)
       end) ∧
  (∀ s,
     tapTimeout GRID_SIZE NUM_MINES t s
     = match pending t with
       | [] => (t, Done s)
       | p :: _ =>
         (freshTaps,
          if clickCount t =? 1
          then revealedCell GRID_SIZE NUM_MINES s (Pos.row p) (Pos.col p)
          else Done s)
       end).
Proof.
  intros Ht.
  assert ((clickCount t = 0 ∧ pending t = []) ∨
          (1 ≤ clickCount t ∧ ∃ p, pending t = [p])) as Hinv.
  { induction Ht as [|t s row col _ IH|t s _ IH].
    - by left.
    - right. unfold handleClick.
      destruct IH as [[Hc Hp]|[Hc [p Hp]]].
      + rewrite Hc, Hp. simpl. split; [lia|eauto].
      + destruct (Z.ltb_spec (clickCount t + 1) 2); [lia|]. simpl.
        split; [lia|eauto].
    - unfold tapTimeout. destruct IH as [[Hc Hp]|[Hc [p Hp]]].
      + rewrite Hp. simpl. by left.
      + rewrite Hp. simpl. by left. }
  split; [done|]. split.
  - intros s row col. unfold handleClick.
    destruct Hinv as [[Hc Hp]|[Hc [p Hp]]]; rewrite Hp.
    + by rewrite Hc.
    + by destruct (Z.ltb_spec (clickCount t + 1) 2); [lia|].
  - intros s. unfold tapTimeout.
    destruct Hinv as [[Hc Hp]|[Hc [p Hp]]]; rewrite Hp; [done|].
    unfold freshTaps. f_equal.
    destruct (Z.ltb_spec (clickCount t) 2), (Z.eqb_spec (clickCount t) 1);
      (done || lia).
Qed.


Lemma fixedFrom_refl (c : CellProps.t) : fixedFrom c c.
Proof. split; [apply playedFrom_refl|done]. Qed.

Lemma fixedFrom_trans (c1 c2 c3 : CellProps.t) :
  fixedFrom c1 c2 → fixedFrom c2 c3 → fixedFrom c1 c3.
Proof. intros [? ?] [? ?]. split; [by eapply playedFrom_trans|auto]. Qed.

Lemma steppedFrom_fixedFrom (c c' : CellProps.t) : steppedFrom c c' → fixedFrom c c'.
Proof.
  intros [->|(Hr & [(_ & _ & ->)|[v ->]])]; [apply fixedFrom_refl| |];
    (split; [by repeat split|simpl; congruence]).
Qed.

(** X19.  No handler moves a mine: a call of [revealedCell] or
    [flagToggleSet], the losing and the winning click included, leaves every
    cell where it is with its [isMine], [adjacentMines] and
    [surroundingCells], and never hides a revealed cell.  So the first click
    of a game can hit a mine. *)
Theorem handlers_keep_the_mines
    (s s' : GameBoard.t) (row col : Z) (p : Pos.t) (c : CellProps.t) :
  revealedCell GRID_SIZE NUM_MINES s row col = Done s' ∨
  flagToggleSet GRID_SIZE NUM_MINES s row col = Done s' →
  cellAt (GameBoard.board s) p = Some c →
  ∃ c', cellAt (GameBoard.board s') p = Some c' ∧
        CellProps.isMine c' = CellProps.isMine c ∧
        CellProps.adjacentMines c' = CellProps.adjacentMines c ∧
        CellProps.surroundingCells c' = CellProps.surroundingCells c ∧
        (CellProps.isRevealed c = true → CellProps.isRevealed c' = true).
Proof.
  intros Hrun Hc.
  cut (boardRel fixedFrom (GameBoard.board s) (GameBoard.board s')).
  { intros Hrel.
    destruct (boardRel_cellAt_l _ _ _ _ _ Hrel Hc) as (c' & Hc' & (Hm & Ha & Hs) & Hr).
    by exists c'. }
  destruct Hrun as [Hrun|Hrun].
  - destruct (revealedCell_cases _ _ _ _ Hrun) as (c0 & Hc0 & Hcase).
    destruct Hcase as [[_ ->]|(Hr0 & Hf0 & [(_ & ->)|[(_ & _ & ->)|(_ & _ & _ & Hfill)]])];
      simpl.
    + apply boardRel_refl, fixedFrom_refl.
    + apply (boardRel_trans fixedFrom _
               (setCell (GameBoard.board s) (Pos.mk row col)
                  (CellProps.setRevealed true c0)));
        [exact fixedFrom_trans| |].
      * eapply boardRel_setCell; [exact fixedFrom_refl|exact Hc0|].
        split; [by repeat split|done].
      * apply boardRel_mapCells. intros c1. split; [by repeat split|done].
    + apply (boardRel_trans fixedFrom _
               (setCell (GameBoard.board s) (Pos.mk row col)
                  (CellProps.setRevealed true c0)));
        [exact fixedFrom_trans| |].
      * eapply boardRel_setCell; [exact fixedFrom_refl|exact Hc0|].
        split; [by repeat split|done].
      * apply boardRel_mapCells. intros c1.
        apply steppedFrom_fixedFrom, steppedFrom_flagHidden.
    + apply (boardRel_trans fixedFrom _
               (setCell (GameBoard.board s) (Pos.mk row col)
                  (CellProps.setRevealed true c0)));
        [exact fixedFrom_trans| |].
      * eapply boardRel_setCell; [exact fixedFrom_refl|exact Hc0|].
        split; [by repeat split|done].
      * eapply boardRel_impl; [|apply (fill_board _ _ _ Hfill)].
        intros c1 c1' H1. by apply steppedFrom_fixedFrom, revealedFrom_steppedFrom.
  - by destruct (flagToggleSet_boardRel fixedFrom fixedFrom_refl
                   steppedFrom_fixedFrom _ _ _ _ Hrun).
Qed.

End Play.

(** * More about board generation *)

Lemma setMines_loop_prefix (numMines : Z) (picks more : list Pos.t) :
  ∀ (minesPlaced : Z) (board board' : Board),
    setMines_loop numMines picks minesPlaced board = Done board' →
    setMines_loop numMines (picks ++ more) minesPlaced board = Done board'.
Proof.
  induction picks as [|p picks IH]; intros placed b b'; simpl;
    destruct (placed <? numMines) eqn:Hlt; try done.
  - destruct more; simpl; by rewrite Hlt.
  - destruct b as [|r0 b0]; [done|].
    destruct (cellAt (r0 :: b0) p) as [c|]; [|done].
    destruct (CellProps.isMine c); apply IH.
Qed.

Lemma setMines_loop_mines (numMines : Z) (picks : list Pos.t) :
  ∀ (minesPlaced : Z) (board board' : Board) (q : Pos.t),
    setMines_loop numMines picks minesPlaced board = Done board' →
    isMineAt board' q = true → isMineAt board q = true ∨ q ∈ picks.
Proof.
  induction picks as [|p picks IH]; intros placed b b' q; simpl;
    destruct (placed <? numMines); try done.
  - intros [= <-]. by left.
  - destruct b as [|r0 b0]; [done|].
    destruct (cellAt (r0 :: b0) p) as [c|] eqn:Hc; [|done].
    destruct (CellProps.isMine c).
    + intros Hrun Hq. destruct (IH _ _ _ _ Hrun Hq); [by left|right; by right].
    + intros Hrun Hq. destruct (IH _ _ _ _ Hrun Hq) as [Hm|Hin]; [|right; by right].
      destruct (decide (p = q)) as [->|Hne]; [right; by left|]. left.
      unfold isMineAt in *. by rewrite cellAt_setCell_ne in Hm.
  - intros [= <-]. by left.
Qed.

Section MoreGeneration.
Context (GRID_SIZE : Pos.t) (NUM_MINES : Z).

Local Abbreviation rows := (Pos.row GRID_SIZE).
Local Abbreviation cols := (Pos.col GRID_SIZE).

(** X16.  [initializeBoard] puts mines only on cells the random source
    picked, and once it has returned it ignores any further pick. *)
Theorem mines_where_picked (picks : list Pos.t) (board : Board) :
  initializeBoard GRID_SIZE NUM_MINES picks = Done board →
  (∀ p, isMineAt board p = true → p ∈ picks) ∧
  (∀ more, initializeBoard GRID_SIZE NUM_MINES (picks ++ more) = Done board).
Proof.
  unfold initializeBoard. destruct (_ || _); [discriminate|].
  intros (b1 & Hmines & Hpass)%bindO_Done. split.
  - intros p Hp.
    pose proof Hmines as [Hrel1 _]%setMines_loop_spec.
    destruct (annotate_pass_spec GRID_SIZE _ _ _
                (gridBoard_boardRel _ _ _ _ Hrel1
                   (gridBoard_blank GRID_SIZE initializeCell)) Hpass) as [Hrel2 _].
    rewrite (isMineAt_boardRel annotatedFrom b1 board) in Hp;
      [|by intros ? ? (? & _)|done].
    destruct (setMines_loop_mines _ _ _ _ _ p Hmines Hp) as [Hblank|Hin]; [|done].
    unfold isMineAt in Hblank. rewrite cellAt_blank in Hblank.
    by destruct (inGrid _ _ _).
  - intros more. unfold setMines in *.
    by rewrite (setMines_loop_prefix _ _ more _ _ _ Hmines).
Qed.

Lemma mineCount_with_self (board : Board) (row col : Z) (before after : list (Z * Z)) :
  gridBoard GRID_SIZE board →
  mineCount board
    (filter (onGrid GRID_SIZE)
       ((λ '(i, j), Pos.mk (row + i) (col + j)) <$> (before ++ (0, 0) :: after)))
  = mineCount board
      (filter (onGrid GRID_SIZE)
         ((λ '(i, j), Pos.mk (row + i) (col + j)) <$> (before ++ after)))
    + Z.b2z (isMineAt board (Pos.mk row col)).
Proof.
  intros Hg. rewrite !fmap_app, !filter_app, !mineCount_app.
  rewrite fmap_cons, filter_cons. cbv beta iota. rewrite !Z.add_0_r.
  case_decide as Hon.
  - rewrite mineCount_cons. lia.
  - assert (isMineAt board (Pos.mk row col) = false) as ->; [|simpl; lia].
    unfold isMineAt. destruct (cellAt board (Pos.mk row col)) eqn:Hc; [|done].
    exfalso. apply Hon, Hg. eauto.
Qed.

(** X17.  [adjacentMines(row, col, board)] counts the cell itself: on a
    board of the size of the grid it returns the number of mines among the
    up-to-8 neighbors, plus one when [(row, col)] holds a mine. *)
Theorem adjacentMines_counts_itself (board : Board) (row col : Z) :
  gridBoard GRID_SIZE board →
  adjacentMines GRID_SIZE row col board
  = Done (mineCount board (neighbors GRID_SIZE row col)
          + Z.b2z (isMineAt board (Pos.mk row col))).
Proof.
  intros Hg. rewrite adjacentMines_spec by done. f_equal.
  rewrite surroundingCells_filter.
  change offsets with
    ([(-1, -1); (-1, 0); (-1, 1); (0, -1)] ++ (0, 0) :: [(0, 1); (1, -1); (1, 0); (1, 1)]).
  rewrite mineCount_with_self by done. f_equal.
  unfold neighbors. simpl. by rewrite !Z.add_0_r.
Qed.

Lemma length_filter_onGrid (p : Pos.t) (l : list Pos.t) :
  Z.of_nat (length (filter (onGrid GRID_SIZE) (p :: l)))
  = Z.b2z (inRange rows (Pos.row p) && inRange cols (Pos.col p))
    + Z.of_nat (length (filter (onGrid GRID_SIZE) l)).
Proof.
  rewrite filter_cons. unfold inRange.
  case_decide as Hon; rewrite onGrid_iff in Hon.
  - rewrite length_cons.
    destruct (Z.leb_spec 0 (Pos.row p)), (Z.ltb_spec (Pos.row p) rows),
      (Z.leb_spec 0 (Pos.col p)), (Z.ltb_spec (Pos.col p) cols); simpl; lia.
  - destruct (Z.leb_spec 0 (Pos.row p)), (Z.ltb_spec (Pos.row p) rows),
      (Z.leb_spec 0 (Pos.col p)), (Z.ltb_spec (Pos.col p) cols); simpl; lia.
Qed.

(** X18.  The size of [surroundingCells(row, col)] is the number of rows
    among [row - 1 .. row + 1] that exist times the number of such columns
    (9 inside the grid, 6 on an edge, 4 in a corner of a grid with at least
    two rows and columns), and the relation is symmetric between cells of the
    grid. *)
Theorem surroundingCells_shape (row col : Z) :
  Z.of_nat (length (surroundingCells GRID_SIZE row col))
  = reachOf rows row * reachOf cols col ∧
  ∀ q, q ∈ surroundingCells GRID_SIZE row col ∧ onGrid GRID_SIZE (Pos.mk row col)
       ↔ Pos.mk row col ∈ surroundingCells GRID_SIZE (Pos.row q) (Pos.col q)
         ∧ onGrid GRID_SIZE q.
Proof.
  split.
  - rewrite surroundingCells_filter.
    change offsets with
      [(-1, -1); (-1, 0); (-1, 1); (0, -1); (0, 0); (0, 1); (1, -1); (1, 0); (1, 1)].
    rewrite !fmap_cons, fmap_nil. cbv beta iota.
    rewrite !length_filter_onGrid. rewrite filter_nil. simpl length.
    cbn [Pos.row Pos.col]. rewrite !Z.add_0_r.
    change (row + -1) with (row - 1). change (col + -1) with (col - 1).
    unfold reachOf.
    destruct (inRange rows (row - 1)), (inRange rows row), (inRange rows (row + 1)),
      (inRange cols (col - 1)), (inRange cols col), (inRange cols (col + 1));
      reflexivity.
  - intros q. rewrite !elem_of_surroundingCells. unfold near. simpl.
    split; intros [[Hon Hnear] Hon']; (split; [split|]; [done|lia|done]).
Qed.

End MoreGeneration.

(** * The further theorems at work *)



Lemma flagToggleSet_twice_witness :
  flagToggleSet constants.GRID_SIZE constants.NUM_MINES blockGame 7 7
  = Done (stateOf (thenFlag 7 7 (mount blockPicks))) ∧
  flagToggleSet constants.GRID_SIZE constants.NUM_MINES
    (stateOf (thenFlag 7 7 (mount blockPicks))) 7 7
  = Done (stateOf (thenFlag 7 7 (thenFlag 7 7 (mount blockPicks)))) ∧
  GameBoard.board (stateOf (thenFlag 7 7 (thenFlag 7 7 (mount blockPicks))))
  = GameBoard.board blockGame ∧
  GameBoard.flagCount (stateOf (thenFlag 7 7 (thenFlag 7 7 (mount blockPicks))))
  = GameBoard.flagCount blockGame ∧
  GameBoard.revealedCount (stateOf (thenFlag 7 7 (thenFlag 7 7 (mount blockPicks))))
  = GameBoard.revealedCount blockGame ∧
  GameBoard.isGameOver (stateOf (thenFlag 7 7 (thenFlag 7 7 (mount blockPicks))))
  = GameBoard.isGameOver blockGame.
Proof.
  assert (flagToggleSet constants.GRID_SIZE constants.NUM_MINES blockGame 7 7
          = Done (stateOf (thenFlag 7 7 (mount blockPicks)))) as H1
    by (vm_compute; reflexivity).
  assert (flagToggleSet constants.GRID_SIZE constants.NUM_MINES
            (stateOf (thenFlag 7 7 (mount blockPicks))) 7 7
          = Done (stateOf (thenFlag 7 7 (thenFlag 7 7 (mount blockPicks))))) as H2
    by (vm_compute; reflexivity).
  split; [exact H1|]. split; [exact H2|].
  exact (flagToggleSet_twice constants.GRID_SIZE constants.NUM_MINES
           blockGame _ _ 7 7 H1 H2).
Defined.

Lemma revealedCell_twice_witness :
  revealedCell constants.GRID_SIZE constants.NUM_MINES blockGame 7 7
  = Done clearedGame ∧
  revealedCell constants.GRID_SIZE constants.NUM_MINES clearedGame 7 7
  = Done clearedGame.
Proof.
  assert (revealedCell constants.GRID_SIZE constants.NUM_MINES blockGame 7 7
          = Done clearedGame) as H1 by (vm_compute; reflexivity).
  split; [exact H1|].
  exact (revealedCell_twice constants.GRID_SIZE constants.NUM_MINES
           blockGame clearedGame 7 7 H1).
Defined.

Lemma handlers_return_witness :
  reachable constants.GRID_SIZE constants.NUM_MINES flaggedGame ∧
  (onGrid constants.GRID_SIZE (Pos.mk 7 8) →
   (∃ s', revealedCell constants.GRID_SIZE constants.NUM_MINES flaggedGame 7 8 = Done s') ∧
   (∃ s', flagToggleSet constants.GRID_SIZE constants.NUM_MINES flaggedGame 7 8 = Done s')) ∧
  (¬ onGrid constants.GRID_SIZE (Pos.mk 7 8) →
   revealedCell constants.GRID_SIZE constants.NUM_MINES flaggedGame 7 8 = Throws ∧
   flagToggleSet constants.GRID_SIZE constants.NUM_MINES flaggedGame 7 8 = Throws).
Proof.
  split; [exact flaggedGame_reachable|].
  exact (handlers_return constants.GRID_SIZE constants.NUM_MINES flaggedGame 7 8
           flaggedGame_reachable).
Defined.




Lemma not_started_is_fresh_witness :
  reachable constants.GRID_SIZE constants.NUM_MINES blockGame ∧
  GameBoard.isGameStart blockGame = false ∧
  blockGame = freshGame (GameBoard.board blockGame) ∧
  ∀ c, c ∈ cells (GameBoard.board blockGame) →
       CellProps.isRevealed c = false ∧ CellProps.isFlagged c = false.
Proof.
  assert (GameBoard.isGameStart blockGame = false) as Hstart
    by (vm_compute; reflexivity).
  split; [exact blockGame_reachable|]. split; [exact Hstart|].
  exact (not_started_is_fresh constants.GRID_SIZE constants.NUM_MINES blockGame
           blockGame_reachable Hstart).
Defined.

Lemma flags_sit_on_hidden_cells_witness :
  reachable constants.GRID_SIZE constants.NUM_MINES flaggedGame ∧
  GameBoard.isGameOver flaggedGame = false ∧
  CellProps.mk false false true 0 (surroundingCells constants.GRID_SIZE 3 7)
    ∈ cells (GameBoard.board flaggedGame) ∧
  CellProps.isRevealed
    (CellProps.mk false false true 0 (surroundingCells constants.GRID_SIZE 3 7))
  = false.
Proof.
  assert (GameBoard.isGameOver flaggedGame = false) as Hover
    by (vm_compute; reflexivity).
  assert (CellProps.mk false false true 0 (surroundingCells constants.GRID_SIZE 3 7)
            ∈ cells (GameBoard.board flaggedGame)) as Hin.
  { apply elem_of_cells. exists (Pos.mk 3 7). vm_compute. reflexivity. }
  split; [exact flaggedGame_reachable|]. split; [exact Hover|]. split; [exact Hin|].
  exact (flags_sit_on_hidden_cells constants.GRID_SIZE constants.NUM_MINES
           flaggedGame _ flaggedGame_reachable Hover Hin eq_refl).
Defined.

Lemma annotations_kept_witness :
  reachable constants.GRID_SIZE constants.NUM_MINES almostWonGame ∧
  cellAt (GameBoard.board almostWonGame) (Pos.mk 0 0)
  = Some (CellProps.mk false false false 3 (surroundingCells constants.GRID_SIZE 0 0)) ∧
  Z.of_nat (length (cells (GameBoard.board almostWonGame))) = 8 * 8 ∧
  countCells CellProps.isMine (GameBoard.board almostWonGame) = Z.max 0 10 ∧
  surroundingCells constants.GRID_SIZE 0 0 = surroundingCells constants.GRID_SIZE 0 0 ∧
  (false = false →
   3 = mineCount (GameBoard.board almostWonGame) (neighbors constants.GRID_SIZE 0 0) ∧
   0 ≤ 3 ≤ 8).
Proof.
  assert (cellAt (GameBoard.board almostWonGame) (Pos.mk 0 0)
          = Some (CellProps.mk false false false 3
                    (surroundingCells constants.GRID_SIZE 0 0))) as Hcell
    by (vm_compute; reflexivity).
  split; [exact almostWonGame_reachable|]. split; [exact Hcell|].
  exact (annotations_kept constants.GRID_SIZE constants.NUM_MINES almostWonGame
           (Pos.mk 0 0) _ almostWonGame_reachable Hcell).
Defined.

Lemma revealedCell_reveals_only_flood_witness :
  reachable constants.GRID_SIZE constants.NUM_MINES cornerGame ∧
  cellAt (GameBoard.board cornerGame) (Pos.mk 7 7)
  = Some (CellProps.mk false false false 0 (surroundingCells constants.GRID_SIZE 7 7)) ∧
  revealedCell constants.GRID_SIZE constants.NUM_MINES cornerGame 7 7
  = Done almostWonGame ∧
  revealedAt (GameBoard.board almostWonGame) (Pos.mk 5 5) ∧
  (revealedAt (GameBoard.board cornerGame) (Pos.mk 5 5) ∨
   floodPath (GameBoard.board cornerGame) (Pos.mk 7 7) (Pos.mk 5 5)) ∧
  (0 ≠ 0 → revealedAt (GameBoard.board cornerGame) (Pos.mk 5 5)
           ∨ Pos.mk 5 5 = Pos.mk 7 7).
Proof.
  assert (cellAt (GameBoard.board cornerGame) (Pos.mk 7 7)
          = Some (CellProps.mk false false false 0
                    (surroundingCells constants.GRID_SIZE 7 7))) as Hcell
    by (vm_compute; reflexivity).
  assert (revealedCell constants.GRID_SIZE constants.NUM_MINES cornerGame 7 7
          = Done almostWonGame) as Hrun by (vm_compute; reflexivity).
  assert (revealedAt (GameBoard.board almostWonGame) (Pos.mk 5 5)) as Hq.
  { exists (CellProps.mk false true false 0 (surroundingCells constants.GRID_SIZE 5 5)).
    split; vm_compute; reflexivity. }
  split; [exact cornerGame_reachable|]. split; [exact Hcell|].
  split; [exact Hrun|]. split; [exact Hq|].
  exact (revealedCell_reveals_only_flood constants.GRID_SIZE constants.NUM_MINES
           cornerGame almostWonGame 7 7 _ (Pos.mk 5 5)
           cornerGame_reachable Hcell eq_refl eq_refl eq_refl Hrun Hq).
Defined.

Lemma cellContent_sound_witness :
  reachable constants.GRID_SIZE constants.NUM_MINES wonGame ∧
  cellAt (GameBoard.board wonGame) (Pos.mk 0 0)
  = Some (CellProps.mk false true false 3 (surroundingCells constants.GRID_SIZE 0 0)) ∧
  (∀ n, cellContent
          (CellProps.mk false true false 3 (surroundingCells constants.GRID_SIZE 0 0))
        = Count n →
        true = true ∧ false = false ∧ 1 ≤ n ≤ 8 ∧
        n = mineCount (GameBoard.board wonGame) (neighbors constants.GRID_SIZE 0 0)) ∧
  (cellContent
     (CellProps.mk false true false 3 (surroundingCells constants.GRID_SIZE 0 0))
   = Bomb → GameBoard.isGameOver wonGame = true).
Proof.
  assert (cellAt (GameBoard.board wonGame) (Pos.mk 0 0)
          = Some (CellProps.mk false true false 3
                    (surroundingCells constants.GRID_SIZE 0 0))) as Hcell
    by (vm_compute; reflexivity).
  split; [exact wonGame_reachable|]. split; [exact Hcell|].
  exact (cellContent_sound constants.GRID_SIZE constants.NUM_MINES wonGame
           (Pos.mk 0 0) _ wonGame_reachable Hcell).
Defined.



Lemma tap_discipline_witness :
  tapsReachable constants.GRID_SIZE constants.NUM_MINES
    {| clickCount := 1; pending := [Pos.mk 3 3] |} ∧
  (∀ s row col,
     handleClick constants.GRID_SIZE constants.NUM_MINES
       {| clickCount := 1; pending := [Pos.mk 3 3] |} s row col
     = ({| clickCount := 2; pending := [Pos.mk 3 3] |},
        flagToggleSet constants.GRID_SIZE constants.NUM_MINES s row col)) ∧
  (∀ s,
     tapTimeout constants.GRID_SIZE constants.NUM_MINES
       {| clickCount := 1; pending := [Pos.mk 3 3] |} s
     = (freshTaps, revealedCell constants.GRID_SIZE constants.NUM_MINES s 3 3)).
Proof.
  assert (tapsReachable constants.GRID_SIZE constants.NUM_MINES
            {| clickCount := 1; pending := [Pos.mk 3 3] |}) as Ht
    by exact (taps_click constants.GRID_SIZE constants.NUM_MINES
                freshTaps blockGame 3 3
                (taps_fresh constants.GRID_SIZE constants.NUM_MINES)).
  split; [exact Ht|].
  exact (proj2 (tap_discipline constants.GRID_SIZE constants.NUM_MINES _ Ht)).
Defined.


Lemma mines_where_picked_witness :
  initializeBoard constants.GRID_SIZE constants.NUM_MINES blockPicks
  = Done (GameBoard.board blockGame) ∧
  (∀ p, isMineAt (GameBoard.board blockGame) p = true → p ∈ blockPicks) ∧
  (∀ more,
     initializeBoard constants.GRID_SIZE constants.NUM_MINES (blockPicks ++ more)
     = Done (GameBoard.board blockGame)).
Proof.
  assert (initializeBoard constants.GRID_SIZE constants.NUM_MINES blockPicks
          = Done (GameBoard.board blockGame)) as Hinit by (vm_compute; reflexivity).
  split; [exact Hinit|].
  exact (mines_where_picked constants.GRID_SIZE constants.NUM_MINES
           blockPicks _ Hinit).
Defined.

Lemma adjacentMines_counts_itself_witness :
  gridBoard constants.GRID_SIZE (GameBoard.board blockGame) ∧
  mineCount (GameBoard.board blockGame) (neighbors constants.GRID_SIZE 0 0) = 3 ∧
  isMineAt (GameBoard.board blockGame) (Pos.mk 0 0) = true ∧
  adjacentMines constants.GRID_SIZE 0 0 (GameBoard.board blockGame)
  = Done (mineCount (GameBoard.board blockGame) (neighbors constants.GRID_SIZE 0 0)
          + Z.b2z (isMineAt (GameBoard.board blockGame) (Pos.mk 0 0))).
Proof.
  assert (gridBoard constants.GRID_SIZE (GameBoard.board blockGame)) as Hgrid
    by exact (inv_grid _ _ _ (reachable_inv _ _ _ blockGame_reachable)).
  split; [exact Hgrid|].
  split; [vm_compute; reflexivity|]. split; [vm_compute; reflexivity|].
  exact (adjacentMines_counts_itself constants.GRID_SIZE
           (GameBoard.board blockGame) 0 0 Hgrid).
Defined.

Lemma handlers_keep_the_mines_witness :
  (revealedCell constants.GRID_SIZE constants.NUM_MINES blockGame 0 0 = Done lostGame ∨
   flagToggleSet constants.GRID_SIZE constants.NUM_MINES blockGame 0 0 = Done lostGame) ∧
  cellAt (GameBoard.board blockGame) (Pos.mk 0 0)
  = Some (CellProps.mk true false false 0 (surroundingCells constants.GRID_SIZE 0 0)) ∧
  ∃ c', cellAt (GameBoard.board lostGame) (Pos.mk 0 0) = Some c' ∧
        CellProps.isMine c' = true ∧
        CellProps.adjacentMines c' = 0 ∧
        CellProps.surroundingCells c' = surroundingCells constants.GRID_SIZE 0 0 ∧
        (false = true → CellProps.isRevealed c' = true).
Proof.
  assert (revealedCell constants.GRID_SIZE constants.NUM_MINES blockGame 0 0
          = Done lostGame) as Hrun by (vm_compute; reflexivity).
  assert (cellAt (GameBoard.board blockGame) (Pos.mk 0 0)
          = Some (CellProps.mk true false false 0
                    (surroundingCells constants.GRID_SIZE 0 0))) as Hcell
    by (vm_compute; reflexivity).
  split; [left; exact Hrun|]. split; [exact Hcell|].
  exact (handlers_keep_the_mines constants.GRID_SIZE constants.NUM_MINES
           blockGame lostGame 0 0 (Pos.mk 0 0) _ (or_introl Hrun) Hcell).
Defined.
